(** * SkillWave backend: request lifecycle, chat gateway and presence registry

    A shallow embedding of the Express routes for help requests and chat
    messages (routes/requests.js, routes/messages.js) and of the Socket.io
    gateway of the server entry point (connection, join_room, leave_room,
    send_message, typing, disconnect), together with the properties of the
    request state machine and of the in-memory presence maps.

    Conventions of the embedding:
    - MongoDB collections are finite maps (requests, users, categories) or an
      append-only list (messages); whether a database call of a handler
      resolves or rejects is decided by an oracle of the environment;
    - [console.log]/[console.error], socket emissions and mails are recorded,
      in program order, in the list of effects a handler returns;
    - JavaScript [Map]s of [Set]s are [gmap]s of [gset]s; the iteration order
      of a [Set] is not tracked;
    - the fields Mongoose maintains by itself (createdAt, updatedAt, __v) are
      left out of the documents. *)

From Stdlib Require Import Ascii String.
From stdpp Require Import gmap strings list fin_maps.

Open Scope string_scope.
Open Scope list_scope.
Open Scope nat_scope.

(** ** Identifiers and documents *)

Abbreviation UserId := string (only parsing).
Abbreviation RequestId := string (only parsing).
Abbreviation CategoryId := string (only parsing).
Abbreviation MessageId := string (only parsing).
Abbreviation SocketId := string (only parsing).
Abbreviation Timestamp := nat (only parsing).

(** [status] enum of models/HelpRequest.js *)
Inductive Status := open | in_progress | completed | cancelled.

#[global] Instance Status_eq_dec : EqDecision Status.
Proof. solve_decision. Defined.

(** [urgency] enum of models/HelpRequest.js *)
Inductive Urgency := low | medium | high.

Record User := {
  email : string;
  name : string;
  picture : option string
}.

Record Category := {
  cat_name : string;
  cat_description : string;
  cat_icon : string
}.

(** helpRequestSchema. Optional paths are [option]s; [status] defaults to
    [open] and [isRemote] to [true] (see [new_HelpRequest]). *)
Record HelpRequest := {
  requester : UserId;
  category : CategoryId;
  title : string;
  description : string;
  skillsNeeded : list string;
  urgency : Urgency;
  estimatedDuration : option string;
  location : option string;
  isRemote : bool;
  budgetMin : option nat;
  budgetMax : option nat;
  status : Status;
  helper : option UserId;
  acceptedAt : option Timestamp;
  completedAt : option Timestamp
}.

(** messageSchema, with the generated [_id] *)
Record Message := {
  _id : MessageId;
  request : RequestId;
  sender : UserId;
  content : string;
  messageType : string;
  fileName : option string;
  fileUrl : option string;
  fileSize : option nat;
  isRead : bool
}.

(** The collections the handlers read and write. *)
Record Db := {
  requests : gmap RequestId HelpRequest;
  users : gmap UserId User;
  categories : gmap CategoryId Category;
  messages : list Message
}.

(** ** Environment of a handler run *)

(** The database calls a handler awaits. *)
Inductive DbOp :=
  | FindRequest | SaveRequest | PopulateRequest | FindCategory
  | FindUser | SaveMessage | FindRecipient.

Record Email := {
  to : string;
  subject : string;
  text : string
}.

(** [clock k] is what [new Date()] returns at step k of the run (a handler
    that reads the clock inside a loop reads [clock k] in iteration k), [db_ok op]
    tells whether the database call [op] resolves (it rejects when the
    database cannot be reached, when Mongoose cannot cast an identifier of
    the query or when a validator of the schema refuses the document),
    [mail_ok m] whether [transporter.sendMail] resolves for [m], and [new_id]
    is the ObjectId MongoDB generates for a document created in the run. *)
Record Env := {
  clock : nat → Timestamp;
  db_ok : DbOp → bool;
  mail_ok : Email → bool;
  new_id : string
}.

(** ** Socket.io server state and presence registry *)

(** A server-side socket: [socket.id] and the [socket.userId] the
    authentication middleware stored on it. *)
Record Socket := {
  sid : SocketId;
  suid : UserId
}.

(** [sockets] and [rooms] are Socket.io's own state (live sockets, adapter
    rooms); the three maps are the module-level [Map]s of the server. *)
Record Gateway := {
  sockets : gset SocketId;
  rooms : gmap string (gset SocketId);
  connectedUsers : gmap UserId Socket;
  userRooms : gmap UserId (gset RequestId);
  roomUsers : gmap RequestId (gset UserId)
}.

Definition no_gateway : Gateway :=
  {| sockets := ∅; rooms := ∅; connectedUsers := ∅; userRooms := ∅; roomUsers := ∅ |}.

(** The [message] object send_message broadcasts. *)
Record ChatMessage := {
  cm_requestId : RequestId;
  cm_senderId : UserId;
  cm_senderName : string;
  cm_senderPicture : option string;
  cm_content : string;
  cm_messageType : string;
  cm_fileName : option string;
  cm_fileSize : option nat;
  cm_createdAt : Timestamp;
  cm_isRead : bool;
  cm_id : option MessageId
}.

(** Payloads of the server-to-client events. *)
Inductive Payload :=
  | PresenceEvt (requestId : RequestId) (userId : UserId) (timestamp : Timestamp)
  | MessageEvt (message : ChatMessage)
  | NotificationEvt (requestId : RequestId) (message senderName : string)
      (timestamp : Timestamp)
  | TypingEvt (requestId : RequestId) (userId : UserId) (userName : string)
      (isTyping : bool) (timestamp : Timestamp)
  | ErrorEvt (message : string)
  | AcceptedEvt (requestId : RequestId) (requestTitle : string)
      (helperId requesterId : UserId) (helperName requesterName : string)
  | StatusAcceptedEvt (requestId : RequestId) (requestTitle : string)
      (new_status : Status) (helperId requesterId : UserId)
      (helperName requesterName : string)
  | StatusCompletedEvt (requestId : RequestId) (requestTitle : string)
      (new_status : Status) (helperId requesterId : UserId)
      (completedBy : UserId) (completedByName : string).

Inductive Effect :=
  | Log (line : string)
  | LogError (line : string)
  | Emit (target : SocketId) (event : string) (payload : Payload)
  | Mail (m : Email).

(** *** Socket.io primitives *)

Definition room_sockets (g : Gateway) (room : string) : gset SocketId :=
  default ∅ (rooms g !! room).

(** [socket.join(room)] *)
Definition socket_join (socket : Socket) (room : string) (g : Gateway) : Gateway :=
  {| sockets := sockets g;
     rooms := <[room := room_sockets g room ∪ {[sid socket]}]> (rooms g);
     connectedUsers := connectedUsers g;
     userRooms := userRooms g;
     roomUsers := roomUsers g |}.

(** [socket.leave(room)] *)
Definition socket_leave (socket : Socket) (room : string) (g : Gateway) : Gateway :=
  {| sockets := sockets g;
     rooms := <[room := room_sockets g room ∖ {[sid socket]}]> (rooms g);
     connectedUsers := connectedUsers g;
     userRooms := userRooms g;
     roomUsers := roomUsers g |}.

(** What Socket.io does before it fires [disconnect]: the socket leaves all
    its rooms and is dropped from the live sockets. *)
Definition socket_close (socket : Socket) (g : Gateway) : Gateway :=
  {| sockets := sockets g ∖ {[sid socket]};
     rooms := (λ members, members ∖ {[sid socket]}) <$> rooms g;
     connectedUsers := connectedUsers g;
     userRooms := userRooms g;
     roomUsers := roomUsers g |}.

Definition emit_each (targets : list SocketId) (event : string) (p : Payload) : list Effect :=
  (λ s, Emit s event p) <$> targets.

(** [io.emit(event, p)]: every live socket *)
Definition io_emit (g : Gateway) (event : string) (p : Payload) : list Effect :=
  emit_each (elements (sockets g)) event p.

(** [io.to(room).emit(event, p)]: every socket of the room *)
Definition io_to_emit (g : Gateway) (room : string) (event : string) (p : Payload)
  : list Effect :=
  emit_each (elements (room_sockets g room)) event p.

(** [socket.to(room).emit(event, p)]: every socket of the room but [socket] *)
Definition socket_to_emit (g : Gateway) (socket : Socket) (room : string)
    (event : string) (p : Payload) : list Effect :=
  emit_each (elements (room_sockets g room ∖ {[sid socket]})) event p.

(** [socket.emit(event, p)] *)
Definition socket_emit (socket : Socket) (event : string) (p : Payload) : list Effect :=
  [Emit (sid socket) event p].

(** ** REST layer: routes/requests.js *)

(** [req.user], the decoded token [authenticateToken] stores on the request;
    the handlers below are the route bodies that run after it. *)
Record AuthUser := {
  au_id : UserId;
  au_email : string;
  au_name : string
}.

(** A request document after [populate('requester')] and
    [populate('helper')]: a reference whose user is gone populates to null. *)
Record Populated := {
  p_id : RequestId;
  p_doc : HelpRequest;
  p_requester : option User;
  p_helper : option User
}.

Inductive Body :=
  | JsonError (error : string)
  | JsonErrors (fields : list string)
  | JsonRequest (r : Populated)
  | JsonMessage (m : Message) (senderName : string) (senderPicture : option string).

Record Response := {
  code : nat;
  body : Body
}.

Definition reply (c : nat) (b : Body) : Response := {| code := c; body := b |}.

(** [HelpRequest.findById(id).populate(...)] *)
Definition populate (db : Db) (id : RequestId) : option Populated :=
  r ← requests db !! id;
  Some {| p_id := id; p_doc := r;
          p_requester := users db !! requester r;
          p_helper := h ← helper r; users db !! h |}.

Definition save_request (id : RequestId) (r : HelpRequest) (db : Db) : Db :=
  {| requests := <[id := r]> (requests db);
     users := users db;
     categories := categories db;
     messages := messages db |}.

(** Consecutive [await sendEmail(...)] of one [try] block. An entry is [None]
    when building the mail dereferences a populated user that is null. The
    result is the mails that went out and whether the block ran to its end. *)
Fixpoint send_all (env : Env) (mails : list (option Email)) : list Effect * bool :=
  match mails with
  | [] => ([], true)
  | None :: _ => ([], false)
  | Some m :: rest =>
      if mail_ok env m
      then let '(sent, finished) := send_all env rest in (Mail m :: sent, finished)
      else ([], false)
  end.

Definition nl : string := String "010"%char "".

(** *** POST /requests *)

Record CreateBody := {
  cb_title : string;
  cb_description : string;
  cb_categoryId : string;
  cb_skillsNeeded : option (list string);
  cb_urgency : option Urgency;
  cb_estimatedDuration : option string;
  cb_location : option string;
  cb_isRemote : option bool;
  cb_budgetMin : option nat;
  cb_budgetMax : option nat
}.

(** *** validator.js

    A string of the embedding is the UTF-8 encoding of the JavaScript string
    (a string with a lone surrogate has none and is left out). *)

(** The ASCII characters of JavaScript's [\s]: space, tab, line feed,
    vertical tab, form feed, carriage return. *)
Definition is_space (c : ascii) : bool :=
  bool_decide (c ∈ [" "; "009"; "010"; "011"; "012"; "013"]%char).

(** U+00A0 *)
Definition is_space2 (a b : ascii) : bool :=
  bool_decide (nat_of_ascii a = 194 ∧ nat_of_ascii b = 160).

(** The characters of [\s] that take three bytes: U+1680, U+2000 to U+200A,
    U+2028, U+2029, U+202F, U+205F, U+3000 and U+FEFF. *)
Definition is_space3 (a b c : ascii) : bool :=
  let '(x, y, z) := (nat_of_ascii a, nat_of_ascii b, nat_of_ascii c) in
  bool_decide (x = 225 ∧ y = 154 ∧ z = 128) ||
  bool_decide (x = 226 ∧ y = 128 ∧ (128 ≤ z ≤ 138 ∨ z = 168 ∨ z = 169 ∨ z = 175)) ||
  bool_decide (x = 226 ∧ y = 129 ∧ z = 159) ||
  bool_decide (x = 227 ∧ y = 128 ∧ z = 128) ||
  bool_decide (x = 239 ∧ y = 187 ∧ z = 191).

(** Removal of the white space a list of bytes starts with, for three tests
    of a character of one, two and three bytes. *)
Fixpoint strip (sp1 : ascii → bool) (sp2 : ascii → ascii → bool)
    (sp3 : ascii → ascii → ascii → bool) (s : list ascii) : list ascii :=
  match s with
  | a :: s1 =>
      if sp1 a then strip sp1 sp2 sp3 s1 else
      match s1 with
      | b :: s2 =>
          if sp2 a b then strip sp1 sp2 sp3 s2 else
          match s2 with
          | c :: s3 => if sp3 a b c then strip sp1 sp2 sp3 s3 else s
          | [] => s
          end
      | [] => s
      end
  | [] => []
  end.

(** [ltrim(str)]: [str.replace(/^\s+/g, '')] *)
Definition ltrim (s : list ascii) : list ascii := strip is_space is_space2 is_space3 s.

(** [rtrim(str)]: the characters of [\s] at the end are dropped; read from
    the end, the bytes of a character come in reverse. *)
Definition rtrim (s : list ascii) : list ascii :=
  rev (strip is_space (λ b a, is_space2 a b) (λ c b a, is_space3 a b c) (rev s)).

(** The [trim()] sanitizer: [rtrim(ltrim(str))] *)
Definition trim (s : string) : string :=
  string_of_list_ascii (rtrim (ltrim (list_ascii_of_string s))).

(** The bytes that are not the first byte of a character. *)
Definition is_continuation (c : ascii) : bool :=
  bool_decide (128 ≤ nat_of_ascii c ≤ 191).

(** A variation selector, U+FE0E or U+FE0F, starts here. *)
Definition selector_at (s : list ascii) : bool :=
  match s with
  | a :: b :: c :: _ =>
      bool_decide (nat_of_ascii a = 239 ∧ nat_of_ascii b = 184 ∧
                   (nat_of_ascii c = 142 ∨ nat_of_ascii c = 143))
  | _ => false
  end.

(** The length [isLength] compares: [str.length] less the number of surrogate
    pairs and of variation selectors, which is the number of characters that
    are not a variation selector. *)
Fixpoint counted_length (s : list ascii) : nat :=
  match s with
  | [] => 0
  | a :: s1 =>
      (if is_continuation a || selector_at s then 0 else 1) + counted_length s1
  end.

(** [isLength({ min: 1 })] *)
Definition isLength_min1 (s : string) : bool :=
  bool_decide (1 ≤ counted_length (list_ascii_of_string s)).

Definition is_hex (c : ascii) : bool :=
  let n := nat_of_ascii c in
  bool_decide (48 ≤ n ≤ 57) || bool_decide (65 ≤ n ≤ 70) ||
  bool_decide (97 ≤ n ≤ 102).

(** [/[0-9A-F]+/i] on a whole list *)
Definition hex_digits (s : list ascii) : bool :=
  match s with
  | [] => false
  | _ => forallb is_hex s
  end.

(** [isHexadecimal(str)]: [/^(0x|0h)?[0-9A-F]+$/i] *)
Definition isHexadecimal (s : list ascii) : bool :=
  hex_digits s ||
  match s with
  | zero :: letter :: digits =>
      bool_decide (zero = "0"%char) &&
      bool_decide (letter ∈ ["x"; "X"; "h"; "H"]%char) && hex_digits digits
  | _ => false
  end.

(** [isMongoId(str)]: [isHexadecimal(str) && str.length === 24]. It lets
    through a 24-character string with the prefix [0x] or [0h], which
    Mongoose cannot cast to an ObjectId: the query made with it rejects, which
    is one of the rejections of [db_ok]. *)
Definition isMongoId (s : string) : bool :=
  isHexadecimal (list_ascii_of_string s) && bool_decide (String.length s = 24).

(** The validation chain of the route; the result lists the failing fields. *)
Definition validate_create (b : CreateBody) : list string :=
  (if isLength_min1 (trim (cb_title b)) then [] else ["title"]) ++
  (if isLength_min1 (trim (cb_description b)) then [] else ["description"]) ++
  (if isMongoId (cb_categoryId b) then [] else ["categoryId"]).

(** [new HelpRequest({...})] of the route, with the schema defaults. *)
Definition new_HelpRequest (caller : AuthUser) (b : CreateBody) : HelpRequest :=
  {| requester := au_id caller;
     category := cb_categoryId b;
     title := trim (cb_title b);
     description := trim (cb_description b);
     skillsNeeded := default [] (cb_skillsNeeded b);
     urgency := default medium (cb_urgency b);
     estimatedDuration := cb_estimatedDuration b;
     location := cb_location b;
     isRemote := negb (bool_decide (cb_isRemote b = Some false));
     budgetMin := cb_budgetMin b;
     budgetMax := cb_budgetMax b;
     status := open;
     helper := None;
     acceptedAt := None;
     completedAt := None |}.

Definition creation_mail (p : Populated) : option Email :=
  u ← p_requester p;
  Some {| to := email u;
          subject := "Your help request has been created: " +:+ title (p_doc p);
          text := "Hi " +:+ name u +:+ "," +:+ nl +:+ nl +:+
                  "Your help request titled '" +:+ title (p_doc p) +:+
                  "' has been successfully created." +:+ nl +:+ nl +:+
                  "Description: " +:+ description (p_doc p) +:+ nl +:+ nl +:+
                  "Thank you for using SkillFull!" |}.

Definition create (env : Env) (db : Db) (caller : AuthUser) (b : CreateBody)
  : Response * Db * list Effect :=
  let failed db' :=
    (reply 500 (JsonError "Failed to create request"), db',
     [LogError "Error creating request:"]) in
  match validate_create b with
  | (_ :: _) as errors => (reply 400 (JsonErrors errors), db, [])
  | [] =>
    if negb (db_ok env FindCategory) then failed db else
    match categories db !! cb_categoryId b with
    | None => (reply 400 (JsonError "Invalid category"), db, [])
    | Some _ =>
      if negb (db_ok env SaveRequest) then failed db else
      let db' := save_request (new_id env) (new_HelpRequest caller b) db in
      if negb (db_ok env PopulateRequest) then failed db' else
      match populate db' (new_id env) with
      | None => failed db'
      | Some populated =>
        let '(sent, finished) := send_all env [creation_mail populated] in
        (reply 201 (JsonRequest populated), db',
         sent ++ (if finished then [] else [LogError "Failed to send creation email:"]))
      end
    end
  end.

(** *** POST /requests/:id/accept *)

(** The three assignments of the route before [request.save()]. *)
Definition accepted (r : HelpRequest) (caller : UserId) (now : Timestamp) : HelpRequest :=
  {| requester := requester r; category := category r; title := title r;
     description := description r; skillsNeeded := skillsNeeded r;
     urgency := urgency r; estimatedDuration := estimatedDuration r;
     location := location r; isRemote := isRemote r;
     budgetMin := budgetMin r; budgetMax := budgetMax r;
     status := in_progress;
     helper := Some caller;
     acceptedAt := Some now;
     completedAt := completedAt r |}.

Definition acceptance_mails (p : Populated) : list (option Email) :=
  [ rq ← p_requester p; h ← p_helper p;
    Some {| to := email rq;
            subject := "Your request has been accepted!";
            text := "Hi " +:+ name rq +:+ "," +:+ nl +:+ nl +:+
                    "Your request '" +:+ title (p_doc p) +:+
                    "' has been accepted by " +:+ name h +:+ "." +:+ nl +:+ nl +:+
                    "You can now chat and collaborate." |};
    h ← p_helper p;
    Some {| to := email h;
            subject := "You accepted a request!";
            text := "Hi " +:+ name h +:+ "," +:+ nl +:+ nl +:+
                    "You have accepted the request '" +:+ title (p_doc p) +:+
                    "'." +:+ nl +:+ nl +:+
                    "Please reach out to the requester to get started." |} ].

Definition accept (env : Env) (io : Gateway) (db : Db) (id : RequestId)
    (caller : AuthUser) : Response * Db * list Effect :=
  let failed db' :=
    (reply 500 (JsonError "Failed to accept request"), db',
     [LogError "Error accepting request:"]) in
  if negb (db_ok env FindRequest) then failed db else
  match requests db !! id with
  | None => (reply 404 (JsonError "Request not found"), db, [])
  | Some request =>
    if negb (bool_decide (status request = open))
    then (reply 400 (JsonError "Request is not available"), db, [])
    else if bool_decide (requester request = au_id caller)
    then (reply 400 (JsonError "Cannot accept your own request"), db, [])
    else
      let request := accepted request (au_id caller) (clock env 0) in
      if negb (db_ok env SaveRequest) then failed db else
      let db' := save_request id request db in
      if negb (db_ok env PopulateRequest) then failed db' else
      match populate db' id with
      | None => failed db'
      | Some populated =>
        match p_requester populated with
        | None => failed db'
        | Some rq =>
          let '(sent, finished) := send_all env (acceptance_mails populated) in
          (reply 200 (JsonRequest populated), db',
           io_emit io "request_accepted"
             (AcceptedEvt id (title request) (au_id caller) (requester request)
                (au_name caller) (name rq)) ++
           io_emit io "request_status_updated"
             (StatusAcceptedEvt id (title request) in_progress (au_id caller)
                (requester request) (au_name caller) (name rq)) ++
           [Log ("Emitted request_accepted event for: " +:+ title request)] ++
           sent ++
           (if finished then [] else [LogError "Failed to send acceptance email:"]))
        end
      end
  end.

(** *** POST /requests/:id/complete *)

Definition finished_request (r : HelpRequest) (now : Timestamp) : HelpRequest :=
  {| requester := requester r; category := category r; title := title r;
     description := description r; skillsNeeded := skillsNeeded r;
     urgency := urgency r; estimatedDuration := estimatedDuration r;
     location := location r; isRemote := isRemote r;
     budgetMin := budgetMin r; budgetMax := budgetMax r;
     status := completed;
     helper := helper r;
     acceptedAt := acceptedAt r;
     completedAt := Some now |}.

Definition completion_mails (p : Populated) : list (option Email) :=
  [ rq ← p_requester p; h ← p_helper p;
    Some {| to := email rq;
            subject := "Your help request has been completed!";
            text := "Hi " +:+ name rq +:+ "," +:+ nl +:+ nl +:+
                    "Your help request '" +:+ title (p_doc p) +:+
                    "' has been marked as completed by " +:+ name h +:+ "." +:+
                    nl +:+ nl +:+ "Thank you for using SkillFull!" |};
    h ← p_helper p;
    Some {| to := email h;
            subject := "You completed a help request!";
            text := "Hi " +:+ name h +:+ "," +:+ nl +:+ nl +:+
                    "You have marked the request '" +:+ title (p_doc p) +:+
                    "' as completed." +:+ nl +:+ nl +:+
                    "Thank you for helping on SkillFull!" |} ].

Definition complete (env : Env) (io : Gateway) (db : Db) (id : RequestId)
    (caller : AuthUser) : Response * Db * list Effect :=
  let failed db' :=
    (reply 500 (JsonError "Failed to complete request"), db',
     [LogError "Error completing request:"]) in
  if negb (db_ok env FindRequest) then failed db else
  match requests db !! id with
  | None => (reply 404 (JsonError "Request not found"), db, [])
  | Some request =>
    if negb (bool_decide (status request = in_progress))
    then (reply 400 (JsonError "Request is not in progress"), db, [])
    else
      match helper request with
      | None => failed db     (* request.helper.toString() on an unset helper *)
      | Some h =>
        if negb (bool_decide (h = au_id caller))
        then (reply 403 (JsonError "Only the helper can complete this request"), db, [])
        else
          let request := finished_request request (clock env 0) in
          if negb (db_ok env SaveRequest) then failed db else
          let db' := save_request id request db in
          if negb (db_ok env PopulateRequest) then failed db' else
          match populate db' id with
          | None => failed db'
          | Some populated =>
            let '(sent, finished) := send_all env (completion_mails populated) in
            (reply 200 (JsonRequest populated), db',
             io_emit io "request_status_updated"
               (StatusCompletedEvt id (title request) completed h (requester request)
                  (au_id caller) (au_name caller)) ++
             [Log ("Emitted request completion event for: " +:+ title request)] ++
             sent ++
             (if finished then [] else [LogError "Failed to send completion email:"]))
          end
      end
  end.

(** ** REST layer: routes/messages.js *)

Record MessageBody := {
  mb_requestId : string;
  mb_content : string;
  mb_messageType : option string;
  mb_fileName : option string;
  mb_fileSize : option nat
}.

(** [messageType || 'text'] *)
Definition type_or_text (messageType : option string) : string :=
  match messageType with
  | Some t => if bool_decide (t = "") then "text" else t
  | None => "text"
  end.

Definition validate_message (b : MessageBody) : list string :=
  (if isMongoId (mb_requestId b) then [] else ["requestId"]) ++
  (if isLength_min1 (trim (mb_content b)) then [] else ["content"]).

Definition save_message (m : Message) (db : Db) : Db :=
  {| requests := requests db;
     users := users db;
     categories := categories db;
     messages := messages db ++ [m] |}.

Definition message_mail (recipient sender_user : User) (request : HelpRequest)
    (content : string) : Email :=
  {| to := email recipient;
     subject := "New message on request: " +:+ title request;
     text := "Hi " +:+ name recipient +:+ "," +:+ nl +:+ nl +:+
             "You have a new message from " +:+ name sender_user +:+
             " regarding the request '" +:+ title request +:+ "':" +:+ nl +:+ nl +:+
             content +:+ nl +:+ nl +:+ "Please log in to SkillFull to reply." |}.

(** *** POST /messages *)
Definition post_message (env : Env) (db : Db) (caller : AuthUser) (b : MessageBody)
  : Response * Db * list Effect :=
  let failed db' sent :=
    (reply 500 (JsonError "Failed to send message"), db',
     sent ++ [LogError "Error sending message:"]) in
  match validate_message b with
  | (_ :: _) as errors => (reply 400 (JsonErrors errors), db, [])
  | [] =>
    let content := trim (mb_content b) in
    if negb (db_ok env FindRequest) then failed db [] else
    match requests db !! mb_requestId b with
    | None => (reply 404 (JsonError "Request not found"), db, [])
    | Some request =>
      if bool_decide (requester request ≠ au_id caller) &&
         bool_decide (helper request ≠ Some (au_id caller))
      then (reply 403 (JsonError "Not authorized to send messages"), db, [])
      else
        if negb (db_ok env FindUser) then failed db [] else
        match users db !! au_id caller with
        | None => (reply 404 (JsonError "User not found"), db, [])
        | Some user =>
          let newMessage :=
            {| _id := new_id env;
               request := mb_requestId b;
               sender := au_id caller;
               content := content;
               messageType := type_or_text (mb_messageType b);
               fileName := mb_fileName b;
               fileUrl := None;
               fileSize := mb_fileSize b;
               isRead := false |} in
          if negb (db_ok env SaveMessage) then failed db [] else
          let db' := save_message newMessage db in
          if negb (db_ok env FindRecipient) then failed db' [] else
          let recipient :=
            if bool_decide (requester request = au_id caller)
            then h ← helper request; users db' !! h
            else users db' !! requester request in
          let done sent :=
            (reply 201 (JsonMessage newMessage (name user) (picture user)), db', sent) in
          match recipient with
          | Some recipient =>
            if bool_decide (email recipient = "") then done [] else
            let m := message_mail recipient user request content in
            if mail_ok env m then done [Mail m] else failed db' []
          | None => done []
          end
        end
    end
  end.

(** ** Real-time gateway: the Socket.io handlers of the server *)

Record RoomData := {
  rd_requestId : RequestId;
  rd_userId : UserId
}.

Record MessageData := {
  md_requestId : RequestId;
  md_content : string;
  md_messageType : option string;
  md_fileName : option string;
  md_fileSize : option nat
}.

Record TypingData := {
  td_requestId : RequestId;
  td_userId : UserId;
  td_userName : string;
  td_isTyping : bool
}.

(** [io.use]: the handshake must carry a truthy [auth.userId]. *)
Definition authenticate (auth_userId : option string) : option UserId :=
  match auth_userId with
  | Some userId => if bool_decide (userId = "") then None else Some userId
  | None => None
  end.

(** [io.on('connection')]: Socket.io puts the socket in the room named by its
    own id; the handler registers it and initialises the user's room set. *)
Definition connection (socket : Socket) (g : Gateway) : Gateway * list Effect :=
  let userId := suid socket in
  ({| sockets := sockets g ∪ {[sid socket]};
      rooms := <[sid socket := room_sockets g (sid socket) ∪ {[sid socket]}]> (rooms g);
      connectedUsers := <[userId := socket]> (connectedUsers g);
      userRooms := match userRooms g !! userId with
                   | Some _ => userRooms g
                   | None => <[userId := ∅]> (userRooms g)
                   end;
      roomUsers := roomUsers g |},
   [Log ("User connected: " +:+ userId +:+ " (Socket: " +:+ sid socket +:+ ")")]).

(** The two "Update tracking" statements of join_room, once
    [userRooms.get(userId)] is known to be the set [joined]. *)
Definition track_join (userId : UserId) (requestId : RequestId)
    (joined : gset RequestId) (g : Gateway) : Gateway :=
  {| sockets := sockets g;
     rooms := rooms g;
     connectedUsers := connectedUsers g;
     userRooms := <[userId := joined ∪ {[requestId]}]> (userRooms g);
     roomUsers := <[requestId := default ∅ (roomUsers g !! requestId) ∪ {[userId]}]>
                    (roomUsers g) |}.

(** [socket.on('join_room')]. The part before the awaited lookup only logs,
    the rest runs without interruption. *)
Definition join_room (env : Env) (db : Db) (socket : Socket) (data : RoomData)
    (g : Gateway) : Gateway * list Effect :=
  let requestId := rd_requestId data in
  let userId := rd_userId data in
  let entered := Log ("User " +:+ userId +:+ " joining room: " +:+ requestId) in
  if negb (db_ok env FindRequest)
  then (g, [entered; LogError "Error joining room: "])
  else
    match requests db !! requestId with
    | None => (g, [entered; Log ("Request " +:+ requestId +:+ " not found")])
    | Some request =>
      let isRequester := bool_decide (requester request = userId) in
      let isHelper := bool_decide (helper request = Some userId) in
      if negb isRequester && negb isHelper
      then (g, [entered;
                Log ("User " +:+ userId +:+ " not authorized for request " +:+ requestId)])
      else
        let g := socket_join socket requestId g in
        match userRooms g !! userId with
        | None => (g, [entered; LogError "Error joining room: "])
        | Some joined =>
          (track_join userId requestId joined g,
           [entered] ++
           socket_to_emit g socket requestId "user_joined_room"
             (PresenceEvt requestId userId (clock env 0)) ++
           [Log ("User " +:+ userId +:+ " joined room " +:+ requestId)])
        end
    end.

Definition forget_room (userId : UserId) (requestId : RequestId)
    (ur : gmap UserId (gset RequestId)) : gmap UserId (gset RequestId) :=
  match ur !! userId with
  | Some userRoomsSet => <[userId := userRoomsSet ∖ {[requestId]}]> ur
  | None => ur
  end.

(** Removal of a user from a room's member set; the entry of a room left
    without members is deleted. *)
Definition forget_user (userId : UserId) (requestId : RequestId)
    (ru : gmap RequestId (gset UserId)) : gmap RequestId (gset UserId) :=
  match ru !! requestId with
  | Some roomUsersSet =>
      let roomUsersSet := roomUsersSet ∖ {[userId]} in
      if bool_decide (size roomUsersSet = 0)
      then delete requestId ru
      else <[requestId := roomUsersSet]> ru
  | None => ru
  end.

(** [socket.on('leave_room')] *)
Definition leave_room (env : Env) (socket : Socket) (data : RoomData) (g : Gateway)
  : Gateway * list Effect :=
  let requestId := rd_requestId data in
  let userId := rd_userId data in
  let g := socket_leave socket requestId g in
  ({| sockets := sockets g;
      rooms := rooms g;
      connectedUsers := connectedUsers g;
      userRooms := forget_room userId requestId (userRooms g);
      roomUsers := forget_user userId requestId (roomUsers g) |},
   [Log ("User " +:+ userId +:+ " leaving room: " +:+ requestId)] ++
   socket_to_emit g socket requestId "user_left_room"
     (PresenceEvt requestId userId (clock env 0)) ++
   [Log ("User " +:+ userId +:+ " left room " +:+ requestId)]).

(** The [roomUsersSet.forEach] of send_message. *)
Definition notify_others (env : Env) (g : Gateway) (requestId : RequestId)
    (senderId : UserId) (user : User) : list Effect :=
  match roomUsers g !! requestId with
  | Some roomUsersSet =>
      mjoin (imap (λ k userId,
        if bool_decide (userId ≠ senderId)
        then match connectedUsers g !! userId with
             | Some userSocket =>
                 socket_emit userSocket "notification"
                   (NotificationEvt requestId ("New message from " +:+ name user)
                      (name user) (clock env (S k)))
             | None => []
             end
        else []) (elements roomUsersSet))
  | None => []
  end.

(** [socket.on('send_message')] *)
Definition send_message (env : Env) (socket : Socket) (data : MessageData)
    (db : Db) (g : Gateway) : Db * list Effect :=
  let requestId := md_requestId data in
  let senderId := suid socket in
  let entered :=
    Log ("Message from " +:+ senderId +:+ " in room " +:+ requestId +:+ ": " +:+
         md_content data) in
  let failed :=
    [entered; LogError "Error sending message: "] ++
    socket_emit socket "error" (ErrorEvt "Failed to send message") in
  if negb (db_ok env FindUser) then (db, failed) else
  match users db !! senderId with
  | None => (db, [entered; Log ("User " +:+ senderId +:+ " not found")])
  | Some user =>
    let message (id : option MessageId) :=
      {| cm_requestId := requestId;
         cm_senderId := senderId;
         cm_senderName := name user;
         cm_senderPicture := picture user;
         cm_content := md_content data;
         cm_messageType := type_or_text (md_messageType data);
         cm_fileName := md_fileName data;
         cm_fileSize := md_fileSize data;
         cm_createdAt := clock env 0;
         cm_isRead := false;
         cm_id := id |} in
    let newMessage :=
      {| _id := new_id env;
         request := requestId;
         sender := senderId;
         content := md_content data;
         messageType := type_or_text (md_messageType data);
         fileName := md_fileName data;
         fileUrl := None;
         fileSize := md_fileSize data;
         isRead := false |} in
    if negb (db_ok env SaveMessage) then (db, failed) else
    (save_message newMessage db,
     [entered] ++
     io_to_emit g requestId "message" (MessageEvt (message (Some (_id newMessage)))) ++
     notify_others env g requestId senderId user ++
     [Log ("Message sent and broadcasted to room " +:+ requestId)])
  end.

(** [socket.on('typing')] *)
Definition typing (env : Env) (socket : Socket) (data : TypingData) (g : Gateway)
  : list Effect :=
  [Log ("Typing indicator from " +:+ td_userName data +:+ " in room " +:+
        td_requestId data +:+ ": " +:+ (if td_isTyping data then "true" else "false"))] ++
  socket_to_emit g socket (td_requestId data) "typing"
    (TypingEvt (td_requestId data) (td_userId data) (td_userName data)
       (td_isTyping data) (clock env 0)).

(** [socket.on('disconnect')]. Socket.io has closed the socket (it is in no
    room any more) when the handler runs. *)
Definition disconnect (env : Env) (socket : Socket) (g : Gateway)
  : Gateway * list Effect :=
  let userId := suid socket in
  let g := socket_close socket g in
  let entered := Log ("User disconnected: " +:+ userId) in
  match userRooms g !! userId with
  | Some userRoomsSet =>
      ({| sockets := sockets g;
          rooms := rooms g;
          connectedUsers := delete userId (connectedUsers g);
          userRooms := delete userId (userRooms g);
          roomUsers := foldr (forget_user userId) (roomUsers g) (elements userRoomsSet) |},
       entered ::
       mjoin (imap (λ k requestId,
         socket_to_emit g socket requestId "user_left_room"
           (PresenceEvt requestId userId (clock env k))) (elements userRoomsSet)))
  | None =>
      ({| sockets := sockets g;
          rooms := rooms g;
          connectedUsers := delete userId (connectedUsers g);
          userRooms := userRooms g;
          roomUsers := roomUsers g |},
       [entered])
  end.

(** ** The whole server as a transition system *)

Record World := {
  w_db : Db;
  w_io : Gateway
}.

Inductive Event :=
  | Connect (id : SocketId) (auth_userId : option string)
  | JoinRoom (socket : Socket) (data : RoomData)
  | LeaveRoom (socket : Socket) (data : RoomData)
  | SendMessage (socket : Socket) (data : MessageData)
  | Typing (socket : Socket) (data : TypingData)
  | Disconnect (socket : Socket)
  | PostRequest (caller : AuthUser) (b : CreateBody)
  | PostAccept (caller : AuthUser) (id : RequestId)
  | PostComplete (caller : AuthUser) (id : RequestId)
  | PostMessage (caller : AuthUser) (b : MessageBody).

Definition step (env : Env) (e : Event) (w : World) : World * list Effect :=
  let db := w_db w in
  let g := w_io w in
  match e with
  | Connect id auth_userId =>
      match authenticate auth_userId with
      | Some userId =>
          let '(g', eff) := connection {| sid := id; suid := userId |} g in
          ({| w_db := db; w_io := g' |}, eff)
      | None => (w, [])
      end
  | JoinRoom socket data =>
      let '(g', eff) := join_room env db socket data g in
      ({| w_db := db; w_io := g' |}, eff)
  | LeaveRoom socket data =>
      let '(g', eff) := leave_room env socket data g in
      ({| w_db := db; w_io := g' |}, eff)
  | SendMessage socket data =>
      let '(db', eff) := send_message env socket data db g in
      ({| w_db := db'; w_io := g |}, eff)
  | Typing socket data => (w, typing env socket data g)
  | Disconnect socket =>
      let '(g', eff) := disconnect env socket g in
      ({| w_db := db; w_io := g' |}, eff)
  | PostRequest caller b =>
      let '(_, db', eff) := create env db caller b in
      ({| w_db := db'; w_io := g |}, eff)
  | PostAccept caller id =>
      let '(_, db', eff) := accept env g db id caller in
      ({| w_db := db'; w_io := g |}, eff)
  | PostComplete caller id =>
      let '(_, db', eff) := complete env g db id caller in
      ({| w_db := db'; w_io := g |}, eff)
  | PostMessage caller b =>
      let '(_, db', eff) := post_message env db caller b in
      ({| w_db := db'; w_io := g |}, eff)
  end.

(** The world after a sequence of events, each with its environment and
    each run as a whole. The presence maps are only touched between two
    awaits of a handler, so nothing is lost for them; for the requests, the
    calls that overlap are in [race] below. *)
Definition run (w : World) (trace : list (Env * Event)) : World :=
  foldl (λ w '(env, e), (step env e w).1) w trace.

(** A server that has just started, with the given users and categories. *)
Definition boot (us : gmap UserId User) (cs : gmap CategoryId Category) : World :=
  {| w_db := {| requests := ∅; users := us; categories := cs; messages := [] |};
     w_io := no_gateway |}.

(** ** Calls that overlap

    [accept] and [complete] await the database twice before the response:
    [findById] hands the route a copy of the stored document, the route tests
    and modifies the copy, and [save()] writes the modified paths of the copy
    to the stored document, whatever its state has become (the schema sets
    no optimistic concurrency). Other calls run between the two. The moves
    below follow the stored requests only: the part of a route that comes
    after [save()] (populate, mails, events, response) writes nothing. *)

(** The paths [save()] writes: those the route assigned. *)
Inductive Delta :=
  | SetAccepted (caller : UserId) (now : Timestamp)
  | SetCompleted (now : Timestamp).

(** A [save()] that was called and has not yet reached the database. *)
Record Save := {
  sv_id : RequestId;
  sv_delta : Delta
}.

Definition modify (d : Delta) (stored : HelpRequest) : HelpRequest :=
  match d with
  | SetAccepted caller now => accepted stored caller now
  | SetCompleted now => finished_request stored now
  end.

(** [accept] from [findById] to the call of [request.save()] *)
Definition accept_reads (env : Env) (db : Db) (id : RequestId) (caller : AuthUser)
  : option Save :=
  if negb (db_ok env FindRequest) then None else
  match requests db !! id with
  | None => None
  | Some request =>
    if negb (bool_decide (status request = open)) then None
    else if bool_decide (requester request = au_id caller) then None
    else Some {| sv_id := id; sv_delta := SetAccepted (au_id caller) (clock env 0) |}
  end.

(** [complete] from [findById] to the call of [request.save()] *)
Definition complete_reads (env : Env) (db : Db) (id : RequestId) (caller : AuthUser)
  : option Save :=
  if negb (db_ok env FindRequest) then None else
  match requests db !! id with
  | None => None
  | Some request =>
    if negb (bool_decide (status request = in_progress)) then None else
    match helper request with
    | None => None
    | Some h =>
      if negb (bool_decide (h = au_id caller)) then None
      else Some {| sv_id := id; sv_delta := SetCompleted (clock env 0) |}
    end
  end.

(** The write of a [save()] at the database. *)
Definition lands (env : Env) (s : Save) (db : Db) : Db :=
  if negb (db_ok env SaveRequest) then db else
  match requests db !! sv_id s with
  | Some stored => save_request (sv_id s) (modify (sv_delta s) stored) db
  | None => db
  end.

Record Racing := {
  r_world : World;
  r_pending : list Save
}.

Inductive Move :=
  | Whole (e : Event)
  | AcceptReads (caller : AuthUser) (id : RequestId)
  | CompleteReads (caller : AuthUser) (id : RequestId)
  | SaveLands (k : nat).

Definition await (x : Racing) (s : option Save) : Racing :=
  match s with
  | Some s => {| r_world := r_world x; r_pending := r_pending x ++ [s] |}
  | None => x
  end.

(** One move: an event or call that runs without another in between
    ([Whole]), a call of accept or complete up to its [save()], or the
    arrival at the database of the [k]-th save in flight. *)
Definition move (env : Env) (m : Move) (x : Racing) : Racing :=
  match m with
  | Whole e => {| r_world := (step env e (r_world x)).1; r_pending := r_pending x |}
  | AcceptReads caller id => await x (accept_reads env (w_db (r_world x)) id caller)
  | CompleteReads caller id => await x (complete_reads env (w_db (r_world x)) id caller)
  | SaveLands k =>
      match r_pending x !! k with
      | Some s =>
          {| r_world := {| w_db := lands env s (w_db (r_world x));
                           w_io := w_io (r_world x) |};
             r_pending := delete k (r_pending x) |}
      | None => x
      end
  end.

Definition race (x : Racing) (trace : list (Env * Move)) : Racing :=
  foldl (λ x '(env, m), move env m x) x trace.

Definition start (us : gmap UserId User) (cs : gmap CategoryId Category) : Racing :=
  {| r_world := boot us cs; r_pending := [] |}.

(** * Specification vocabulary *)

(** ** Presence registry *)

(** [u] is in the member set of room [r] / [r] is in the room set of [u];
    a missing entry counts as the empty set. *)
Definition member (ru : gmap RequestId (gset UserId)) (u : UserId) (r : RequestId) : Prop :=
  u ∈ default ∅ (ru !! r).

Definition joined (ur : gmap UserId (gset RequestId)) (u : UserId) (r : RequestId) : Prop :=
  r ∈ default ∅ (ur !! u).

Definition no_empty_room (ru : gmap RequestId (gset UserId)) : Prop :=
  ∀ r us, ru !! r = Some us → us ≠ ∅.

Definition presence_consistent (g : Gateway) : Prop :=
  (∀ u r, member (roomUsers g) u r ↔ joined (userRooms g) u r) ∧
  no_empty_room (roomUsers g).

(** The entry of a room once user [u] has been taken out of it. *)
Definition without (u : UserId) (entry : option (gset UserId)) : option (gset UserId) :=
  us ← entry;
  if bool_decide (size (us ∖ {[u]}) = 0) then None else Some (us ∖ {[u]}).

(** ** Effects *)

Definition is_log (e : Effect) : Prop :=
  match e with
  | Log _ | LogError _ => True
  | _ => False
  end.

(** The line a handler of the gateway logs last when it ran to its end. *)
Definition joined_line (data : RoomData) : Effect :=
  Log ("User " +:+ rd_userId data +:+ " joined room " +:+ rd_requestId data).

Definition sent_line (data : MessageData) : Effect :=
  Log ("Message sent and broadcasted to room " +:+ md_requestId data).

(** ** Request lifecycle *)

(** The error classes of the design, read off the responses of the routes. *)
Inductive Failure :=
  | NotFoundError | InvalidStateError | SelfAcceptError | ForbiddenError
  | PersistenceError.

Definition failure_of (resp : Response) : option Failure :=
  match code resp, body resp with
  | 404, JsonError _ => Some NotFoundError
  | 400, JsonError e =>
      if bool_decide (e = "Cannot accept your own request") then Some SelfAcceptError
      else if bool_decide (e = "Request is not available") ||
              bool_decide (e = "Request is not in progress") then Some InvalidStateError
      else None
  | 403, JsonError _ => Some ForbiddenError
  | 500, JsonError _ => Some PersistenceError
  | _, _ => None
  end.

Definition succeeded (resp : Response) : Prop := 200 ≤ code resp < 300.

(** No database call of the run rejects. *)
Definition db_up (env : Env) : Prop := ∀ op, db_ok env op = true.

(** The predicate on a single request document. *)
Definition lifecycle_ok (r : HelpRequest) : Prop :=
  (status r = open → helper r = None) ∧
  (status r = in_progress ∨ status r = completed → is_Some (helper r)) ∧
  (is_Some (completedAt r) → status r = completed).

(** The request a move reads or writes through a route. *)
Definition touches (env : Env) (m : Move) : option RequestId :=
  match m with
  | Whole (PostRequest _ _) => Some (new_id env)
  | Whole (PostAccept _ id) | Whole (PostComplete _ id)
  | AcceptReads _ id | CompleteReads _ id => Some id
  | _ => None
  end.

Definition in_flight (x : Racing) : list RequestId := sv_id <$> r_pending x.

(** No call on a request starts while a save for that request is in flight. *)
Fixpoint exclusive (x : Racing) (trace : list (Env * Move)) : Prop :=
  match trace with
  | [] => True
  | (env, m) :: rest =>
      match touches env m with
      | Some id => id ∉ in_flight x
      | None => True
      end ∧ exclusive (move env m x) rest
  end.

(** What the invariant needs of the saves in flight: they are for different
    requests, and each would write a well-formed document. *)
Definition racing_ok (x : Racing) : Prop :=
  map_Forall (λ _ r, lifecycle_ok r) (requests (w_db (r_world x))) ∧
  NoDup (in_flight x) ∧
  Forall (λ s, ∃ stored, requests (w_db (r_world x)) !! sv_id s = Some stored ∧
                 lifecycle_ok (modify (sv_delta s) stored)) (r_pending x).

(** ** Sample data *)

Definition alice : AuthUser :=
  {| au_id := "64b0000000000000000000a1"; au_email := "alice@example.org"; au_name := "Alice" |}.

Definition bob : AuthUser :=
  {| au_id := "64b0000000000000000000b2"; au_email := "bob@example.org"; au_name := "Bob" |}.

Definition maths : CategoryId := "64b0000000000000000000c3".

Definition recursion : RequestId := "64b0000000000000000000d4".

Definition sample_users : gmap UserId User :=
  {[ au_id alice := {| email := au_email alice; name := au_name alice; picture := None |};
     au_id bob := {| email := au_email bob; name := au_name bob; picture := None |} ]}.

Definition sample_categories : gmap CategoryId Category :=
  {[ maths := {| cat_name := "Mathematics";
                 cat_description := "Algebra, calculus, statistics, problem solving";
                 cat_icon := "calculator" |} ]}.

(** An environment in which every database call and every mail goes through. *)
Definition calm (id : string) : Env :=
  {| clock := λ k, 1000 + k; db_ok := λ _, true; mail_ok := λ _, true;
     new_id := id |}.

(** The mail server is down. *)
Definition mail_down (id : string) : Env :=
  {| clock := λ k, 1000 + k; db_ok := λ _, true; mail_ok := λ _, false;
     new_id := id |}.

(** The write of the message is rejected. *)
Definition write_down (id : string) : Env :=
  {| clock := λ k, 1000 + k;
     db_ok := λ op, match op with SaveMessage => false | _ => true end;
     mail_ok := λ _, true;
     new_id := id |}.

Definition recursion_body : CreateBody :=
  {| cb_title := "Help with recursion";
     cb_description := "I do not understand structural recursion";
     cb_categoryId := maths;
     cb_skillsNeeded := None; cb_urgency := None; cb_estimatedDuration := None;
     cb_location := None; cb_isRemote := None; cb_budgetMin := None;
     cb_budgetMax := None |}.

(** A request in a given state, for the examples on single transitions. *)
Definition sample_request (st : Status) (h : option UserId) : HelpRequest :=
  {| requester := au_id alice; category := maths; title := "Help with recursion";
     description := "I do not understand structural recursion";
     skillsNeeded := []; urgency := medium; estimatedDuration := None;
     location := None; isRemote := true; budgetMin := None; budgetMax := None;
     status := st; helper := h; acceptedAt := None; completedAt := None |}.

Definition sample_db (st : Status) (h : option UserId) : Db :=
  {| requests := {[ recursion := sample_request st h ]};
     users := sample_users; categories := sample_categories; messages := [] |}.

Definition tab1 : Socket := {| sid := "s1"; suid := au_id alice |}.
Definition tab2 : Socket := {| sid := "s2"; suid := au_id alice |}.
Definition bobs : Socket := {| sid := "s3"; suid := au_id bob |}.

Definition in_recursion (u : AuthUser) : RoomData :=
  {| rd_requestId := recursion; rd_userId := au_id u |}.

Definition hello : MessageData :=
  {| md_requestId := recursion; md_content := "hello"; md_messageType := None;
     md_fileName := None; md_fileSize := None |}.

(** Alice (requester) and Bob (helper) are both in the room of the request. *)
Definition chatting : Gateway :=
  let g := (connection tab1 no_gateway).1 in
  let g := (connection bobs g).1 in
  let g := (join_room (calm "") (sample_db in_progress (Some (au_id bob))) tab1
              (in_recursion alice) g).1 in
  (join_room (calm "") (sample_db in_progress (Some (au_id bob))) bobs
     (in_recursion bob) g).1.

(** Alice opens a second tab, which joins the room too. *)
Definition two_tabs : Gateway :=
  let g := (connection tab2 chatting).1 in
  (join_room (calm "") (sample_db in_progress (Some (au_id bob))) tab2
     (in_recursion alice) g).1.

(** The walk-through of the design: Alice creates the request, Bob accepts
    it, Alice tries to complete it, Bob completes it. *)
Definition scenario : list (Env * Event) :=
  [ (calm recursion, PostRequest alice recursion_body);
    (calm "", PostAccept bob recursion);
    (calm "", PostComplete alice recursion);
    (calm "", PostComplete bob recursion) ].

Definition hello_body : MessageBody :=
  {| mb_requestId := recursion; mb_content := "hello"; mb_messageType := None;
     mb_fileName := None; mb_fileSize := None |}.

Definition stored_hello (id : MessageId) : Message :=
  {| _id := id; request := recursion; sender := au_id alice; content := "hello";
     messageType := "text"; fileName := None; fileUrl := None; fileSize := None;
     isRead := false |}.

(** [env] with another mail server. *)
Definition with_mail (env : Env) (ok : Email → bool) : Env :=
  {| clock := clock env; db_ok := db_ok env; mail_ok := ok; new_id := new_id env |}.

(** A chat session: the request is created and accepted, both parties
    connect and join its room, and Bob leaves again. *)
Definition chat_trace : list (Env * Event) :=
  [ (calm recursion, PostRequest alice recursion_body);
    (calm "", PostAccept bob recursion);
    (calm "", Connect (sid tab1) (Some (au_id alice)));
    (calm "", Connect (sid bobs) (Some (au_id bob)));
    (calm "", JoinRoom tab1 (in_recursion alice));
    (calm "", JoinRoom bobs (in_recursion bob));
    (calm "", LeaveRoom bobs (in_recursion bob)) ].

Definition carol : AuthUser :=
  {| au_id := "64b0000000000000000000c7"; au_email := "carol@example.org";
     au_name := "Carol" |}.

(** [env] with a clock that starts at [t]. *)
Definition at_time (t : Timestamp) (env : Env) : Env :=
  {| clock := λ k, t + k; db_ok := db_ok env; mail_ok := mail_ok env;
     new_id := new_id env |}.

(** Bob and Carol accept the request at the same time; Bob's save lands
    first and he completes the request before Carol's save lands. *)
Definition overlap : list (Env * Move) :=
  [ (calm recursion, Whole (PostRequest alice recursion_body));
    (at_time 1 (calm ""), AcceptReads bob recursion);
    (at_time 2 (calm ""), AcceptReads carol recursion);
    (calm "", SaveLands 0);
    (at_time 3 (calm ""), Whole (PostComplete bob recursion));
    (calm "", SaveLands 0) ].

(** The same calls, one after the other. *)
Definition in_turn : list (Env * Move) :=
  [ (calm recursion, Whole (PostRequest alice recursion_body));
    (at_time 1 (calm ""), AcceptReads bob recursion);
    (calm "", SaveLands 0);
    (at_time 2 (calm ""), AcceptReads carol recursion);
    (at_time 3 (calm ""), CompleteReads bob recursion);
    (calm "", SaveLands 0) ].

Definition three_users : gmap UserId User :=
  <[au_id carol := {| email := au_email carol; name := au_name carol; picture := None |}]>
    sample_users.

(** A picture sent in the chat. *)
Definition sketch : MessageData :=
  {| md_requestId := recursion; md_content := "my attempt"; md_messageType := Some "image";
     md_fileName := Some "sketch.png"; md_fileSize := Some 2048 |}.

(** Alice has the chat open in two tabs, Bob is in the room; Alice closes
    the first tab. *)
Definition first_tab_closed : list (Env * Event) :=
  [ (calm recursion, PostRequest alice recursion_body);
    (calm "", PostAccept bob recursion);
    (calm "", Connect (sid tab1) (Some (au_id alice)));
    (calm "", Connect (sid tab2) (Some (au_id alice)));
    (calm "", Connect (sid bobs) (Some (au_id bob)));
    (calm "", JoinRoom bobs (in_recursion bob));
    (calm "", Disconnect tab1) ].

(** The server before and after Alice's first tab closes. *)
Definition tabs_open : World :=
  run (boot sample_users sample_categories) (take 6 first_tab_closed).

Definition tab_closed : World :=
  run (boot sample_users sample_categories) first_tab_closed.

(** The request of the walk-through once Bob has accepted it. *)
Definition accepted_recursion : HelpRequest :=
  accepted (new_HelpRequest alice recursion_body) (au_id bob) 1000.

(** * Properties *)

(** ** Presence registry *)

Section presence_lemmas.
Implicit Types (ru : gmap RequestId (gset UserId)) (ur : gmap UserId (gset RequestId)).
Implicit Types (u v : UserId) (r q : RequestId).

Lemma member_forget_user ru u r v q :
  member (forget_user u r ru) v q ↔ member ru v q ∧ ¬ (v = u ∧ q = r).
Proof.
  unfold member, forget_user.
  destruct (ru !! r) as [us|] eqn:Hr.
  - case_bool_decide as Hsize.
    + apply size_empty_inv in Hsize. apply leibniz_equiv in Hsize.
      destruct (decide (q = r)) as [->|Hne].
      * rewrite lookup_delete_eq, Hr. simpl. set_solver.
      * rewrite lookup_delete_ne by done. naive_solver.
    + destruct (decide (q = r)) as [->|Hne].
      * rewrite lookup_insert_eq, Hr. simpl. set_solver.
      * rewrite lookup_insert_ne by done. naive_solver.
  - split; [|tauto]. intros Hm. split; [done|].
    intros [-> ->]. rewrite Hr in Hm. set_solver.
Qed.

Lemma no_empty_forget_user ru u r :
  no_empty_room ru → no_empty_room (forget_user u r ru).
Proof.
  unfold no_empty_room, forget_user. intros Hne q us.
  destruct (ru !! r) as [us0|] eqn:Hr; [|by apply Hne].
  case_bool_decide as Hsize.
  - rewrite lookup_delete. case_decide; [done|]. by apply Hne.
  - rewrite lookup_insert. case_decide; [|by apply Hne].
    intros [= <-] Hempty. apply Hsize. rewrite Hempty. apply size_empty.
Qed.

Lemma member_forget_all ru u (l : list RequestId) v q :
  member (foldr (forget_user u) ru l) v q ↔ member ru v q ∧ ¬ (v = u ∧ q ∈ l).
Proof.
  induction l as [|r l IH]; simpl.
  - set_solver.
  - rewrite member_forget_user, IH. set_solver.
Qed.

Lemma no_empty_forget_all ru u (l : list RequestId) :
  no_empty_room ru → no_empty_room (foldr (forget_user u) ru l).
Proof.
  intros Hne. induction l; simpl; [done|]. by apply no_empty_forget_user.
Qed.

Lemma joined_forget_room ur u r v q :
  joined (forget_room u r ur) v q ↔ joined ur v q ∧ ¬ (v = u ∧ q = r).
Proof.
  unfold joined, forget_room.
  destruct (ur !! u) as [rs|] eqn:Hu.
  - destruct (decide (v = u)) as [->|Hne].
    + rewrite lookup_insert_eq, Hu. simpl. set_solver.
    + rewrite lookup_insert_ne by done. naive_solver.
  - split; [|tauto]. intros Hj. split; [done|].
    intros [-> ->]. rewrite Hu in Hj. set_solver.
Qed.

Lemma joined_delete ur u v q :
  joined (delete u ur) v q ↔ joined ur v q ∧ v ≠ u.
Proof.
  unfold joined. destruct (decide (v = u)) as [->|Hne].
  - rewrite lookup_delete_eq. simpl. set_solver.
  - rewrite lookup_delete_ne by done. naive_solver.
Qed.
End presence_lemmas.

Section presence_preserved.
Implicit Types (g : Gateway) (socket : Socket) (env : Env) (db : Db).

Lemma presence_boot : presence_consistent no_gateway.
Proof.
  split.
  - intros u r. unfold member, joined. simpl. by rewrite !lookup_empty.
  - intros r us. simpl. by rewrite lookup_empty.
Qed.

Lemma presence_connection socket g :
  presence_consistent g → presence_consistent (connection socket g).1.
Proof.
  intros [Hiff Hne]. split; [|done]. intros u r. simpl. rewrite Hiff.
  unfold joined. destruct (userRooms g !! suid socket) eqn:Hu; [done|].
  destruct (decide (u = suid socket)) as [->|Hneq].
  - by rewrite lookup_insert_eq, Hu.
  - by rewrite lookup_insert_ne.
Qed.

Lemma presence_track_join g u r rs :
  userRooms g !! u = Some rs →
  presence_consistent g → presence_consistent (track_join u r rs g).
Proof.
  intros Hu [Hiff Hne]. split.
  - intros v q. simpl. specialize (Hiff v q). unfold member, joined in *.
    destruct (decide (q = r)) as [->|Hq], (decide (v = u)) as [->|Hv];
      rewrite ?lookup_insert_eq, ?lookup_insert_ne by done; simpl.
    + set_solver.
    + rewrite elem_of_union, Hiff. set_solver.
    + rewrite Hiff, Hu. simpl. set_solver.
    + done.
  - intros q us. simpl. rewrite lookup_insert. case_decide; [|by apply Hne].
    intros [= <-]. set_solver.
Qed.

Lemma presence_join_room env db socket data g :
  presence_consistent g → presence_consistent (join_room env db socket data g).1.
Proof.
  intros Hg. unfold join_room.
  destruct (db_ok env FindRequest); simpl; [|done].
  destruct (requests db !! rd_requestId data) as [request|]; [|done].
  destruct (negb _ && negb _); [done|].
  destruct (userRooms _ !! rd_userId data) as [rs|] eqn:Hu; simpl; [|done].
  by apply presence_track_join.
Qed.

Lemma presence_leave_room env socket data g :
  presence_consistent g → presence_consistent (leave_room env socket data g).1.
Proof.
  intros [Hiff Hne]. split; simpl.
  - intros u r. rewrite member_forget_user, joined_forget_room, Hiff. done.
  - by apply no_empty_forget_user.
Qed.

Lemma presence_disconnect env socket g :
  presence_consistent g → presence_consistent (disconnect env socket g).1.
Proof.
  intros [Hiff Hne]. unfold disconnect. simpl.
  destruct (userRooms g !! suid socket) as [rs|] eqn:Hu; simpl; [|done].
  split; simpl.
  - intros u r. rewrite member_forget_all, joined_delete, Hiff.
    unfold joined. split.
    + intros [Hj Hn]. split; [done|]. intros ->. apply Hn. split; [done|].
      rewrite Hu in Hj. by apply elem_of_elements.
    + intros [Hj Hn]. split; [done|]. by intros [? _].
  - by apply no_empty_forget_all.
Qed.

Lemma presence_step env e w :
  presence_consistent (w_io w) → presence_consistent (w_io (step env e w).1).
Proof.
  intros Hw. destruct e; unfold step; cbv zeta.
  - destruct (authenticate auth_userId) as [userId|]; [|done].
    exact (presence_connection {| sid := id; suid := userId |} _ Hw).
  - pose proof (presence_join_room env (w_db w) socket data _ Hw) as H.
    by destruct (join_room _ _ _ _ _).
  - pose proof (presence_leave_room env socket data _ Hw) as H.
    by destruct (leave_room _ _ _ _).
  - by destruct (send_message _ _ _ _ _).
  - done.
  - pose proof (presence_disconnect env socket _ Hw) as H.
    by destruct (disconnect _ _ _).
  - by destruct (create _ _ _ _) as [[? ?] ?].
  - by destruct (accept _ _ _ _ _) as [[? ?] ?].
  - by destruct (complete _ _ _ _ _) as [[? ?] ?].
  - by destruct (post_message _ _ _ _) as [[? ?] ?].
Qed.
End presence_preserved.

(** C9. From a server that has just started, after any sequence of events
    (connections, join_room and leave_room with arbitrary payloads, messages,
    disconnections, REST calls), each with any outcome of its database calls:
    a user is in the member set of a room exactly when the room is in the
    user's room set, and no room is mapped to an empty member set. *)
Theorem presence_registry_invariant (us : gmap UserId User)
    (cs : gmap CategoryId Category) (trace : list (Env * Event)) :
  let g := w_io (run (boot us cs) trace) in
  (∀ u r, u ∈ default ∅ (roomUsers g !! r) ↔ r ∈ default ∅ (userRooms g !! u)) ∧
  (∀ r, roomUsers g !! r ≠ Some ∅).
Proof.
  assert (∀ w, presence_consistent (w_io w) →
               presence_consistent (w_io (run w trace))) as Hrun.
  { induction trace as [|[env e] trace IH]; intros w Hw; [done|].
    apply IH. by apply presence_step. }
  destruct (Hrun (boot us cs) presence_boot) as [Hiff Hne].
  split; [exact Hiff|]. intros r Hr. by apply (Hne r ∅).
Qed.

(** ** Socket.io rooms and emissions *)

Section emissions.
Implicit Types (g : Gateway) (socket : Socket) (s : SocketId) (p : Payload).

Lemma elem_of_emit_each (targets : list SocketId) event p (e : Effect) :
  e ∈ emit_each targets event p ↔ ∃ s, e = Emit s event p ∧ s ∈ targets.
Proof. unfold emit_each. by rewrite list_elem_of_fmap. Qed.

Lemma elem_of_io_to_emit g room event p (e : Effect) :
  e ∈ io_to_emit g room event p ↔ ∃ s, e = Emit s event p ∧ s ∈ room_sockets g room.
Proof.
  unfold io_to_emit. rewrite elem_of_emit_each.
  by setoid_rewrite elem_of_elements.
Qed.

Lemma elem_of_socket_to_emit g socket room event p (e : Effect) :
  e ∈ socket_to_emit g socket room event p ↔
  ∃ s, e = Emit s event p ∧ s ∈ room_sockets g room ∧ s ≠ sid socket.
Proof.
  unfold socket_to_emit. rewrite elem_of_emit_each.
  setoid_rewrite elem_of_elements. set_solver.
Qed.

Lemma room_sockets_join socket room g q :
  room_sockets (socket_join socket room g) q =
  if decide (room = q) then room_sockets g q ∪ {[sid socket]} else room_sockets g q.
Proof.
  unfold room_sockets at 1. simpl. rewrite lookup_insert.
  by case_decide; subst.
Qed.

Lemma room_sockets_close socket g q :
  room_sockets (socket_close socket g) q = room_sockets g q ∖ {[sid socket]}.
Proof.
  unfold room_sockets. simpl. rewrite lookup_fmap.
  destruct (rooms g !! q); simpl; set_solver.
Qed.

(** The emissions of a loop that emits in each iteration. *)
Lemma elem_of_each_iteration {A} (f : nat → A → list Effect) (l : list A) (e : Effect) :
  e ∈ mjoin (imap f l) ↔ ∃ k x, l !! k = Some x ∧ e ∈ f k x.
Proof.
  rewrite list_elem_of_join. split.
  - intros (es & He & Hes). apply elem_of_lookup_imap in Hes as (k & x & -> & Hk).
    eauto.
  - intros (k & x & Hk & He). exists (f k x). split; [done|].
    by apply elem_of_lookup_imap_2.
Qed.
End emissions.

(** ** Disconnection *)

Section disconnection.
Implicit Types (ru : gmap RequestId (gset UserId)) (u : UserId) (r q : RequestId).

Lemma lookup_forget_user ru u r q :
  forget_user u r ru !! q = if decide (q = r) then without u (ru !! q) else ru !! q.
Proof.
  unfold forget_user, without. case_decide as Hq.
  - subst q. destruct (ru !! r) as [us|] eqn:Hr; simpl; [|done].
    case_bool_decide; [apply lookup_delete_eq | apply lookup_insert_eq].
  - destruct (ru !! r) as [us|]; [|done].
    case_bool_decide; [by apply lookup_delete_ne | by apply lookup_insert_ne].
Qed.

Lemma without_twice u (entry : option (gset UserId)) :
  without u (without u entry) = without u entry.
Proof.
  unfold without. destruct entry as [us|]; simpl; [|done].
  case_bool_decide as Hsize; simpl; [done|].
  assert (us ∖ {[u]} ∖ {[u]} = us ∖ {[u]}) as -> by (clear; set_solver).
  by rewrite bool_decide_eq_false_2.
Qed.

Lemma lookup_forget_all ru u (l : list RequestId) q :
  foldr (forget_user u) ru l !! q = if decide (q ∈ l) then without u (ru !! q) else ru !! q.
Proof.
  induction l as [|r l IH]; cbn [foldr].
  - by rewrite decide_False by by intros ?%elem_of_nil.
  - rewrite lookup_forget_user, IH.
    destruct (decide (q = r)) as [->|Hne].
    + rewrite (decide_True (P := r ∈ r :: l)) by left.
      case_decide; [apply without_twice | done].
    + destruct (decide (q ∈ l)) as [Hin|Hin].
      * by rewrite (decide_True (P := q ∈ r :: l)) by by right.
      * rewrite (decide_False (P := q ∈ r :: l)); [done|].
        by intros [?|?]%elem_of_cons.
Qed.
End disconnection.

(** C5. When the socket of user [u] disconnects: [u] has no entry in the
    connection registry any more; in every room of [u]'s room set, [u] is
    taken out of the member set and the entry of a room left empty is
    deleted ([without]), the other entries are untouched; and every
    connection that remains in such a room is sent a [user_left_room] event
    with the room, [u] and a time stamp. Nothing else is emitted. *)
Theorem disconnect_leaves_every_room (env : Env) (socket : Socket) (g : Gateway) :
  let u := suid socket in
  let left := default ∅ (userRooms g !! u) in
  let g' := (disconnect env socket g).1 in
  let eff := (disconnect env socket g).2 in
  connectedUsers g' !! u = None ∧
  (∀ r, r ∈ left → roomUsers g' !! r = without u (roomUsers g !! r)) ∧
  (∀ r, r ∉ left → roomUsers g' !! r = roomUsers g !! r) ∧
  (∀ r s, r ∈ left → s ∈ room_sockets g r → s ≠ sid socket →
     ∃ t, Emit s "user_left_room" (PresenceEvt r u t) ∈ eff) ∧
  (∀ s ev p, Emit s ev p ∈ eff →
     ∃ r t, r ∈ left ∧ s ∈ room_sockets g r ∧ s ≠ sid socket ∧
            ev = "user_left_room" ∧ p = PresenceEvt r u t).
Proof.
  intros u left g' eff. subst g' eff. unfold disconnect. simpl.
  fold u. subst left.
  destruct (userRooms g !! u) as [rs|] eqn:Hu; simpl.
  - split_and!.
    + apply lookup_delete_eq.
    + intros r Hr. rewrite lookup_forget_all.
      by rewrite decide_True by by apply elem_of_elements.
    + intros r Hr. rewrite lookup_forget_all.
      by rewrite decide_False by by rewrite elem_of_elements.
    + intros r s Hr Hs Hne.
      apply elem_of_elements, list_elem_of_lookup in Hr as [k Hk].
      exists (clock env k). right. apply elem_of_each_iteration.
      exists k, r. split; [done|]. apply elem_of_socket_to_emit.
      exists s. rewrite room_sockets_close. set_solver.
    + intros s ev p [[=]|Hin]%elem_of_cons.
      apply elem_of_each_iteration in Hin as (k & r & Hk & Hin).
      apply elem_of_socket_to_emit in Hin as (s' & [= -> -> ->] & Hs & Hne).
      rewrite room_sockets_close in Hs.
      exists r, (clock env k). split_and!; try done; [|set_solver].
      apply elem_of_elements, list_elem_of_lookup. eauto.
  - split_and!; try done.
    + apply lookup_delete_eq.
    + intros s ev p [[=]|Hin]%elem_of_cons. by apply elem_of_nil in Hin.
Qed.

(** ** Joining a room *)

(** C6. join_room with payload [(r, u)], received on [socket], has one of
    three outcomes.
    - The lookup of the request rejects, the request does not exist, or [u]
      is neither its requester nor its helper: the handler only logs, nothing
      is emitted (no error event either) and the gateway, with both presence
      maps, is unchanged.
    - The request is found, [u] is its requester or its helper and [u] has a
      room set: the socket is added to the connection group of [r] and to no
      other, [r] to the room set of [u] and [u] to the member set of [r]; a
      [user_joined_room] event with [r], [u] and the time is emitted to
      exactly the other connections of the room, nothing else is emitted, and
      the handler logs that the user joined.
    - The request is found and [u] is its requester or its helper, but [u]
      has no room set (the room sets are made by the connection handler for
      the user of the socket, and deleted by disconnect): the socket is added
      to the connection group, then [userRooms.get(userId).add] throws; the
      error is logged, neither presence map is changed, and nobody is
      notified. *)
Theorem join_room_outcomes (env : Env) (db : Db) (socket : Socket)
    (data : RoomData) (g : Gateway) :
  let r := rd_requestId data in
  let u := rd_userId data in
  let g' := (join_room env db socket data g).1 in
  let eff := (join_room env db socket data g).2 in
  ((db_ok env FindRequest = false ∨ requests db !! r = None ∨
    ∃ request, requests db !! r = Some request ∧
               requester request ≠ u ∧ helper request ≠ Some u) →
   g' = g ∧ Forall is_log eff) ∧
  (∀ request, db_ok env FindRequest = true → requests db !! r = Some request →
     requester request = u ∨ helper request = Some u →
     (∀ rs, userRooms g !! u = Some rs →
        (∀ q, room_sockets g' q =
              if decide (r = q) then room_sockets g q ∪ {[sid socket]}
              else room_sockets g q) ∧
        userRooms g' = <[u := rs ∪ {[r]}]> (userRooms g) ∧
        roomUsers g' = <[r := default ∅ (roomUsers g !! r) ∪ {[u]}]> (roomUsers g) ∧
        connectedUsers g' = connectedUsers g ∧
        (∀ s ev p, Emit s ev p ∈ eff ↔
           ev = "user_joined_room" ∧ p = PresenceEvt r u (clock env 0) ∧
           s ∈ room_sockets g r ∧ s ≠ sid socket) ∧
        last eff = Some (joined_line data)) ∧
     (userRooms g !! u = None →
        (∀ q, room_sockets g' q =
              if decide (r = q) then room_sockets g q ∪ {[sid socket]}
              else room_sockets g q) ∧
        userRooms g' = userRooms g ∧ roomUsers g' = roomUsers g ∧
        connectedUsers g' = connectedUsers g ∧
        Forall is_log eff ∧ last eff = Some (LogError "Error joining room: "))).
Proof.
  intros r u g' eff. subst g' eff. unfold join_room. fold r u. split.
  - intros Hfail. destruct (db_ok env FindRequest); simpl.
    + destruct Hfail as [[=]|[->|(request & -> & Hrq & Hh)]].
      * split; [done|]. by repeat constructor.
      * rewrite !bool_decide_eq_false_2 by done. simpl.
        split; [done|]. by repeat constructor.
    + split; [done|]. by repeat constructor.
  - intros request -> -> Hauth. simpl.
    assert (negb (bool_decide (requester request = u)) &&
            negb (bool_decide (helper request = Some u)) = false) as ->.
    { destruct Hauth as [Hrq|Hh];
        [rewrite (bool_decide_eq_true_2 _ Hrq) | rewrite (bool_decide_eq_true_2 _ Hh)];
        simpl; [done|by rewrite andb_false_r]. }
    split.
    + intros rs Hrs. simpl. rewrite Hrs. simpl. split_and!; try done.
      * intros q. apply room_sockets_join.
      * intros s ev p. rewrite elem_of_cons, elem_of_app, elem_of_socket_to_emit.
        rewrite room_sockets_join, decide_True by done. split.
        -- intros [[=]|[(s' & [= -> -> ->] & Hs & Hne)|[[=]|[]%elem_of_nil]%elem_of_cons]].
           split_and!; try done. set_solver.
        -- intros (-> & -> & Hs & Hne). right. left. exists s. set_solver.
      * by rewrite last_cons, last_snoc.
    + intros Hnone. simpl. rewrite Hnone. simpl. split_and!; try done.
      * intros q. apply room_sockets_join.
      * by repeat constructor.
Qed.

(** When join_room runs to its end: the lookup resolves, the request exists,
    the user of the payload is its requester or helper, and that user has a
    room set (it is registered by a connection that has not been cleaned up). *)
Lemma join_room_completes_iff (env : Env) (db : Db) (socket : Socket)
    (data : RoomData) (g : Gateway) :
  last (join_room env db socket data g).2 = Some (joined_line data) ↔
  db_ok env FindRequest = true ∧
  ∃ request rs, requests db !! rd_requestId data = Some request ∧
    (requester request = rd_userId data ∨ helper request = Some (rd_userId data)) ∧
    userRooms g !! rd_userId data = Some rs.
Proof.
  unfold join_room. set (r := rd_requestId data). set (u := rd_userId data).
  destruct (db_ok env FindRequest); simpl; [|naive_solver].
  destruct (requests db !! r) as [request|]; simpl; [|naive_solver].
  destruct (decide (requester request = u)) as [Hrq|Hrq],
           (decide (helper request = Some u)) as [Hh|Hh];
    rewrite ?(bool_decide_eq_true_2 _ Hrq), ?(bool_decide_eq_false_2 _ Hrq),
            ?(bool_decide_eq_true_2 _ Hh), ?(bool_decide_eq_false_2 _ Hh); simpl.
  4: { split; [|naive_solver]. unfold joined_line. fold r u. intros [= Heq].
       by apply (inj (String.append u)) in Heq. }
  all: destruct (userRooms g !! u) as [rs|] eqn:Hu; simpl; [|naive_solver].
  all: rewrite last_cons, last_snoc; naive_solver.
Qed.

(** ** Two connections of one user *)

(** C10. Let [s1] and [s2] be two connections of the same user [u]. The
    connection handler run for [s2] makes [s2] the registry entry of [u],
    whatever was stored before. If [s1] disconnects while the registry maps [u]
    to the live socket [s2], the disconnect handler, which does not compare the
    stored socket with the disconnecting one, leaves [s2] connected and in
    its Socket.io rooms, but [u] has no registry entry and no room set any
    more and is in the member set of no room. *)
Theorem stale_disconnect_unregisters_live_connection (env : Env) (s1 s2 : Socket)
    (g0 g : Gateway) :
  suid s1 = suid s2 → sid s1 ≠ sid s2 →
  let u := suid s2 in
  connectedUsers (connection s2 g0).1 !! u = Some s2 ∧
  (presence_consistent g → connectedUsers g !! u = Some s2 → sid s2 ∈ sockets g →
   let g' := (disconnect env s1 g).1 in
   sid s2 ∈ sockets g' ∧
   (∀ room, sid s2 ∈ room_sockets g room → sid s2 ∈ room_sockets g' room) ∧
   connectedUsers g' !! u = None ∧
   userRooms g' !! u = None ∧
   ∀ r, u ∉ default ∅ (roomUsers g' !! r)).
Proof.
  intros Hsame Hdiff u. split; [apply lookup_insert_eq|].
  intros Hg Hreg Hlive g'.
  assert (userRooms g' !! u = None) as Hnone.
  { subst g'. unfold disconnect. simpl. rewrite Hsame. fold u.
    destruct (userRooms g !! u) eqn:Hu; simpl; [apply lookup_delete_eq | done]. }
  assert (∀ q, room_sockets g' q = room_sockets g q ∖ {[sid s1]}) as Hrooms.
  { intros q. rewrite <- room_sockets_close. subst g'. unfold disconnect. simpl.
    by destruct (userRooms g !! suid s1). }
  split_and!.
  - subst g'. unfold disconnect. simpl.
    destruct (userRooms g !! suid s1); simpl; set_solver.
  - intros q Hq. rewrite Hrooms. set_solver.
  - subst g'. unfold disconnect. simpl. rewrite Hsame. fold u.
    destruct (userRooms g !! u); simpl; apply lookup_delete_eq.
  - done.
  - intros r. destruct (presence_disconnect env s1 g Hg) as [Hiff _].
    fold g' in Hiff. specialize (Hiff u r). unfold member, joined in Hiff.
    rewrite Hiff, Hnone. set_solver.
Qed.

(** ** Sending a message through the gateway *)

(** An emission cannot be in a list of log lines. *)
Ltac only_logs :=
  let Hin := fresh "Hin" in
  intros Hin;
  repeat (apply elem_of_cons in Hin as [Hin|Hin]; [discriminate Hin|]);
  by apply elem_of_nil in Hin.

Lemma elem_of_notify_others (env : Env) (g : Gateway) (requestId : RequestId)
    (senderId : UserId) (user : User) (e : Effect) :
  e ∈ notify_others env g requestId senderId user →
  ∃ userId userSocket t,
    userId ∈ default ∅ (roomUsers g !! requestId) ∧ userId ≠ senderId ∧
    connectedUsers g !! userId = Some userSocket ∧
    e = Emit (sid userSocket) "notification"
          (NotificationEvt requestId ("New message from " +:+ name user) (name user) t).
Proof.
  unfold notify_others. destruct (roomUsers g !! requestId) as [us|]; simpl.
  - intros (k & userId & Hk & He)%elem_of_each_iteration.
    case_bool_decide; [|by apply elem_of_nil in He].
    destruct (connectedUsers g !! userId) as [userSocket|] eqn:Hc;
      [|by apply elem_of_nil in He].
    apply list_elem_of_singleton in He. exists userId, userSocket, (clock env (S k)).
    split_and!; try done. apply elem_of_elements, list_elem_of_lookup. eauto.
  - by intros ?%elem_of_nil.
Qed.

Lemma join_room_emits_presence_only (env : Env) (db : Db) (socket : Socket)
    (data : RoomData) (g : Gateway) (s : SocketId) (ev : string) (p : Payload) :
  Emit s ev p ∈ (join_room env db socket data g).2 → ev = "user_joined_room".
Proof.
  unfold join_room.
  destruct (db_ok env FindRequest); simpl; [|only_logs].
  destruct (requests db !! rd_requestId data) as [request|]; simpl; [|only_logs].
  destruct (negb _ && negb _); simpl; [only_logs|].
  destruct (userRooms g !! rd_userId data) as [rs|]; simpl; [|only_logs].
  rewrite elem_of_cons, elem_of_app, elem_of_socket_to_emit.
  intros [[=]|[(s' & [= -> -> ->] & _)|[[=]|[]%elem_of_nil]%elem_of_cons]].
  done.
Qed.

(** When send_message runs to its end: the two database calls resolve and
    the user of the socket has a record. *)
Lemma send_message_completes_iff (env : Env) (socket : Socket) (data : MessageData)
    (db : Db) (g : Gateway) :
  last (send_message env socket data db g).2 = Some (sent_line data) ↔
  db_ok env FindUser = true ∧ is_Some (users db !! suid socket) ∧
  db_ok env SaveMessage = true.
Proof.
  unfold send_message.
  destruct (db_ok env FindUser); simpl; [|naive_solver].
  destruct (users db !! suid socket) as [user|]; simpl;
    [|split; [by intros [=] | by intros (_ & [? [=]] & _)]].
  destruct (db_ok env SaveMessage); simpl; [|naive_solver].
  split; [eauto|]. intros _.
  by rewrite last_cons, app_assoc, last_snoc.
Qed.

(** C1, as the code has it. A send_message event for room [R] runs to its
    end (it logs that the message was sent and broadcast) exactly when its
    database calls resolve and the sender has a user record. Then the message
    collection has grown by exactly one row, with the request, sender, content,
    file name and size of the event, the message type of the event (['text']
    when the event gives none, or an empty one) and [isRead = false]; the
    message object, carrying the identifier of the new row, is emitted as a
    [message] event to exactly the connections that are in the connection
    group of [R] at that moment. The handler does not test that the sender
    joined [R]: the sender's own connection gets the message when it is in
    the group, and not otherwise. No join_room emits a [message] event, so a
    connection that joins afterwards does not get it. *)
Theorem send_message_persists_once_and_broadcasts (env : Env) (socket : Socket)
    (data : MessageData) (db : Db) (g : Gateway) :
  let R := md_requestId data in
  let db' := (send_message env socket data db g).1 in
  let eff := (send_message env socket data db g).2 in
  (db_ok env FindUser = true → is_Some (users db !! suid socket) →
   db_ok env SaveMessage = true → last eff = Some (sent_line data)) ∧
  (last eff = Some (sent_line data) →
   ∃ user t, users db !! suid socket = Some user ∧
     (md_messageType data = Some t ∧ t ≠ "" ∨
      (md_messageType data = None ∨ md_messageType data = Some "") ∧ t = "text") ∧
     let row :=
       {| _id := new_id env; request := R; sender := suid socket;
          content := md_content data; messageType := t;
          fileName := md_fileName data; fileUrl := None;
          fileSize := md_fileSize data; isRead := false |} in
     let message :=
       {| cm_requestId := R; cm_senderId := suid socket;
          cm_senderName := name user; cm_senderPicture := picture user;
          cm_content := md_content data; cm_messageType := t;
          cm_fileName := md_fileName data; cm_fileSize := md_fileSize data;
          cm_createdAt := clock env 0; cm_isRead := false;
          cm_id := Some (new_id env) |} in
     messages db' = messages db ++ [row] ∧
     (∀ s, Emit s "message" (MessageEvt message) ∈ eff ↔ s ∈ room_sockets g R) ∧
     (∀ s p, Emit s "message" p ∈ eff → p = MessageEvt message) ∧
     (Emit (sid socket) "message" (MessageEvt message) ∈ eff ↔
      sid socket ∈ room_sockets g R) ∧
     (∀ env' db0 socket' data' g0 s p,
        Emit s "message" p ∉ (join_room env' db0 socket' data' g0).2)).
Proof.
  intros R db' eff. subst db' eff. split.
  { intros. by apply send_message_completes_iff. }
  unfold send_message. fold R.
  destruct (db_ok env FindUser); simpl; [|by intros [=]].
  destruct (users db !! suid socket) as [user|]; simpl; [|by intros [=]].
  destruct (db_ok env SaveMessage); simpl; [|by intros [=]].
  intros _. exists user, (type_or_text (md_messageType data)). split; [done|].
  split.
  { unfold type_or_text. destruct (md_messageType data) as [t|]; [|by right; split; [left|]].
    case_bool_decide; [subst; right|left]; eauto. }
  assert (∀ s p, Emit s "message" p ∈ notify_others env g R (suid socket) user → False)
    as Hnotify.
  { intros s p (? & ? & ? & _ & _ & _ & [=])%elem_of_notify_others. }
  assert (∀ s p, Emit s "message" p ∈
            Log ("Message from " +:+ suid socket +:+ " in room " +:+ R +:+ ": " +:+
                 md_content data) ::
            io_to_emit g R "message" p ++
            notify_others env g R (suid socket) user ++
            [Log ("Message sent and broadcasted to room " +:+ R)] ↔
          s ∈ room_sockets g R) as Hgroup.
  { intros s p. rewrite elem_of_cons, !elem_of_app, elem_of_io_to_emit. split.
    - intros [[=]|[(s' & [= ->] & Hs)|[Hn|[[=]|[]%elem_of_nil]%elem_of_cons]]];
        [done|by apply Hnotify in Hn].
    - intros Hs. right. left. eauto. }
  split_and!.
  - done.
  - intros s. apply Hgroup.
  - intros s p. rewrite elem_of_cons, !elem_of_app, elem_of_io_to_emit.
    intros [[=]|[(s' & [= -> ->] & Hs)|[Hn|[[=]|[]%elem_of_nil]%elem_of_cons]]];
      [done|by apply Hnotify in Hn].
  - apply Hgroup.
  - intros env' db0 socket' data' g0 s p Hin.
    by apply join_room_emits_presence_only in Hin.
Qed.

(** C7. A send_message event whose write to the message collection is
    rejected: the rejection is caught and logged, the collections are
    unchanged, an [error] event is emitted to the sender's connection, and
    nothing is emitted to any other connection (no [message], no
    [notification]). *)
Theorem send_message_write_failure_reaches_sender_only (env : Env) (socket : Socket)
    (data : MessageData) (db : Db) (g : Gateway) (user : User) :
  db_ok env FindUser = true →
  users db !! suid socket = Some user →
  db_ok env SaveMessage = false →
  let db' := (send_message env socket data db g).1 in
  let eff := (send_message env socket data db g).2 in
  db' = db ∧
  LogError "Error sending message: " ∈ eff ∧
  Emit (sid socket) "error" (ErrorEvt "Failed to send message") ∈ eff ∧
  (∀ s ev p, Emit s ev p ∈ eff →
     s = sid socket ∧ ev = "error" ∧ p = ErrorEvt "Failed to send message").
Proof.
  intros Hfind Huser Hsave db' eff. subst db' eff. unfold send_message.
  rewrite Hfind, Huser, Hsave. simpl. split_and!.
  - done.
  - set_solver.
  - set_solver.
  - intros s ev p Hin. set_solver.
Qed.

(** ** Request lifecycle *)

Section lifecycle.
Implicit Types (env : Env) (io : Gateway) (db : Db) (caller : AuthUser).

Lemma populate_saved db id (r : HelpRequest) :
  is_Some (populate (save_request id r db) id).
Proof. unfold populate. simpl. rewrite lookup_insert_eq. simpl. eauto. Qed.

Lemma send_all_shape env (mails : list (option Email)) :
  Forall (λ e, ∃ m, e = Mail m) (send_all env mails).1.
Proof.
  induction mails as [|[m|] mails IH]; simpl; [constructor| |constructor].
  destruct (mail_ok env m); [|constructor].
  destruct (send_all env mails) as [sent finished]. simpl in *.
  constructor; eauto.
Qed.
End lifecycle.

Arguments send_all : simpl never.

(** C2, as the code has it. For an accept call that finds the request:
    if the status is not [open] the call fails with InvalidStateError and
    nothing is written, whoever the caller is; if the status is [open] and
    the caller is the requester it fails with SelfAcceptError and nothing is
    written. The call answers with success only when the status is [open]
    and the caller is not the requester, and then the stored request has
    helper = caller, status = in_progress and acceptedAt = now, its other
    fields being unchanged; it does answer with success in that case when
    the database calls resolve and the requester's user record exists. *)
Theorem accept_transition (env : Env) (io : Gateway) (db : Db) (id : RequestId)
    (caller : AuthUser) (request : HelpRequest) :
  db_ok env FindRequest = true →
  requests db !! id = Some request →
  let resp := (accept env io db id caller).1.1 in
  let db' := (accept env io db id caller).1.2 in
  (status request ≠ open → failure_of resp = Some InvalidStateError ∧ db' = db) ∧
  (status request = open → requester request = au_id caller →
   failure_of resp = Some SelfAcceptError ∧ db' = db) ∧
  (succeeded resp →
   status request = open ∧ requester request ≠ au_id caller ∧
   ∃ request', requests db' !! id = Some request' ∧
     request' = accepted request (au_id caller) (clock env 0) ∧
     helper request' = Some (au_id caller) ∧
     status request' = in_progress ∧
     acceptedAt request' = Some (clock env 0)) ∧
  (status request = open → requester request ≠ au_id caller →
   db_up env → is_Some (users db !! requester request) → succeeded resp).
Proof.
  intros Hfind Hreq resp db'. subst resp db'. unfold accept.
  rewrite Hfind, Hreq. simpl.
  destruct (decide (status request = open)) as [Hopen|Hopen].
  2: { rewrite (bool_decide_eq_false_2 _ Hopen). simpl.
       unfold succeeded. simpl. split_and!; try done. lia. }
  rewrite (bool_decide_eq_true_2 _ Hopen). simpl.
  destruct (decide (requester request = au_id caller)) as [Hself|Hself].
  { rewrite (bool_decide_eq_true_2 _ Hself). simpl.
    unfold succeeded. simpl. split_and!; try done. lia. }
  rewrite (bool_decide_eq_false_2 _ Hself). simpl.
  split_and!; try done.
  - destruct (db_ok env SaveRequest); simpl; [|unfold succeeded; simpl; lia].
    destruct (db_ok env PopulateRequest); simpl; [|unfold succeeded; simpl; lia].
    destruct (populate_saved db id (accepted request (au_id caller) (clock env 0)))
      as [populated ->].
    destruct (p_requester populated); simpl; [|unfold succeeded; simpl; lia].
    destruct (send_all env _) as [sent finished]. simpl. intros _.
    split_and!; try done. eexists. split; [apply lookup_insert_eq|done].
  - intros _ _ Hup [rq Hrq]. rewrite !Hup. simpl.
    unfold populate. simpl. rewrite lookup_insert_eq. simpl. rewrite Hrq.
    destruct (send_all env _) as [sent finished]. unfold succeeded. simpl. lia.
Qed.

(** C2 as stated fails where its two failure cases overlap: Alice, the
    requester, accepts her own request while it is in progress. The route
    checks the status first and answers "Request is not available"
    (InvalidStateError), not SelfAcceptError. *)
Lemma accept_own_request_in_progress :
  let db := sample_db in_progress (Some (au_id bob)) in
  let request := sample_request in_progress (Some (au_id bob)) in
  let resp := (accept (calm "") no_gateway db recursion alice).1.1 in
  requests db !! recursion = Some request ∧
  requester request = au_id alice ∧
  resp = reply 400 (JsonError "Request is not available") ∧
  failure_of resp = Some InvalidStateError ∧
  failure_of resp ≠ Some SelfAcceptError.
Proof. by vm_compute. Qed.

Lemma accept_transition_witness :
  let db := sample_db open None in
  let resp := (accept (calm "") no_gateway db recursion bob).1.1 in
  let db' := (accept (calm "") no_gateway db recursion bob).1.2 in
  succeeded resp ∧
  failure_of (accept (calm "") no_gateway (sample_db completed (Some (au_id bob)))
                recursion alice).1.1 = Some InvalidStateError ∧
  failure_of (accept (calm "") no_gateway db recursion alice).1.1 = Some SelfAcceptError ∧
  ∃ request', requests db' !! recursion = Some request' ∧
    helper request' = Some (au_id bob) ∧ status request' = in_progress ∧
    acceptedAt request' = Some 1000.
Proof.
  assert (db_ok (calm "") FindRequest = true) as Hfind by reflexivity.
  assert (∀ st h, requests (sample_db st h) !! recursion = Some (sample_request st h))
    as Hreq by (intros; apply lookup_singleton_eq).
  pose proof (accept_transition (calm "") no_gateway _ recursion bob _
                Hfind (Hreq open None)) as (_ & _ & Hsucc & Hok).
  pose proof (accept_transition (calm "") no_gateway _ recursion alice _
                Hfind (Hreq completed (Some (au_id bob)))) as (Hinvalid & _).
  pose proof (accept_transition (calm "") no_gateway _ recursion alice _
                Hfind (Hreq open None)) as (_ & Hself & _).
  assert (succeeded (accept (calm "") no_gateway (sample_db open None) recursion bob).1.1)
    as Hdone.
  { apply Hok; [reflexivity | by vm_compute | by intros [] | by vm_compute; eauto]. }
  split; [exact Hdone|].
  split; [by apply Hinvalid|].
  split; [by apply Hself|].
  destruct (Hsucc Hdone) as (_ & _ & request' & Hlook & _ & Hh & Hst & Hat).
  exists request'. done.
Defined.

(** C3, as the code has it. For a complete call that finds the request: if
    the status is not [in_progress] the call fails with InvalidStateError and
    nothing is written, whoever the caller is; if the status is
    [in_progress] and the caller is not the helper of the request it fails
    with ForbiddenError and nothing is written. The call answers with
    success only when the status is [in_progress] and the caller is the
    helper, and then the stored request has status = completed and
    completedAt = now, its other fields being unchanged; it does answer with
    success in that case when the database calls resolve. *)
Theorem complete_transition (env : Env) (io : Gateway) (db : Db) (id : RequestId)
    (caller : AuthUser) (request : HelpRequest) :
  db_ok env FindRequest = true →
  requests db !! id = Some request →
  let resp := (complete env io db id caller).1.1 in
  let db' := (complete env io db id caller).1.2 in
  (status request ≠ in_progress →
   failure_of resp = Some InvalidStateError ∧ db' = db) ∧
  (status request = in_progress →
   ∀ h, helper request = Some h → h ≠ au_id caller →
   failure_of resp = Some ForbiddenError ∧ db' = db) ∧
  (succeeded resp →
   status request = in_progress ∧ helper request = Some (au_id caller) ∧
   ∃ request', requests db' !! id = Some request' ∧
     request' = finished_request request (clock env 0) ∧
     status request' = completed ∧
     completedAt request' = Some (clock env 0) ∧
     helper request' = helper request) ∧
  (status request = in_progress → helper request = Some (au_id caller) →
   db_up env → succeeded resp).
Proof.
  intros Hfind Hreq resp db'. subst resp db'. unfold complete.
  rewrite Hfind, Hreq. simpl.
  destruct (decide (status request = in_progress)) as [Hprog|Hprog].
  2: { rewrite (bool_decide_eq_false_2 _ Hprog). simpl.
       unfold succeeded. simpl. split_and!; try done. lia. }
  rewrite (bool_decide_eq_true_2 _ Hprog). simpl.
  destruct (helper request) as [h|] eqn:Hh; simpl.
  2: { unfold succeeded. simpl. split_and!; try done. lia. }
  destruct (decide (h = au_id caller)) as [->|Hother].
  2: { rewrite (bool_decide_eq_false_2 _ Hother). simpl.
       unfold succeeded. simpl. split_and!; try done; [lia|congruence]. }
  rewrite (bool_decide_eq_true_2 _ eq_refl). simpl.
  split_and!; try done.
  - by intros _ h' [= <-] Hne.
  - destruct (db_ok env SaveRequest); simpl; [|unfold succeeded; simpl; lia].
    destruct (db_ok env PopulateRequest); simpl; [|unfold succeeded; simpl; lia].
    destruct (populate_saved db id (finished_request request (clock env 0)))
      as [populated ->].
    destruct (send_all env _) as [sent finished]. simpl. intros _.
    split_and!; try done. eexists. split; [apply lookup_insert_eq|done].
  - intros _ _ Hup. rewrite !Hup. simpl.
    destruct (populate_saved db id (finished_request request (clock env 0)))
      as [populated ->].
    destruct (send_all env _) as [sent finished]. unfold succeeded. simpl. lia.
Qed.

(** C3 as stated fails where its two failure cases overlap: Alice, who is
    not the helper, completes a request that is already completed. The route
    checks the status first and answers "Request is not in progress"
    (InvalidStateError, status 400), not ForbiddenError. *)
Lemma complete_by_stranger_when_completed :
  let db := sample_db completed (Some (au_id bob)) in
  let request := sample_request completed (Some (au_id bob)) in
  let resp := (complete (calm "") no_gateway db recursion alice).1.1 in
  requests db !! recursion = Some request ∧
  helper request ≠ Some (au_id alice) ∧
  resp = reply 400 (JsonError "Request is not in progress") ∧
  failure_of resp = Some InvalidStateError ∧
  failure_of resp ≠ Some ForbiddenError.
Proof. by vm_compute. Qed.

Lemma complete_transition_witness :
  let db := sample_db in_progress (Some (au_id bob)) in
  let resp := (complete (calm "") no_gateway db recursion bob).1.1 in
  let db' := (complete (calm "") no_gateway db recursion bob).1.2 in
  succeeded resp ∧
  failure_of (complete (calm "") no_gateway (sample_db open None) recursion bob).1.1
    = Some InvalidStateError ∧
  failure_of (complete (calm "") no_gateway db recursion alice).1.1
    = Some ForbiddenError ∧
  ∃ request', requests db' !! recursion = Some request' ∧
    status request' = completed ∧ completedAt request' = Some 1000 ∧
    helper request' = Some (au_id bob).
Proof.
  assert (db_ok (calm "") FindRequest = true) as Hfind by reflexivity.
  assert (∀ st h, requests (sample_db st h) !! recursion = Some (sample_request st h))
    as Hreq by (intros; apply lookup_singleton_eq).
  pose proof (complete_transition (calm "") no_gateway _ recursion bob _
                Hfind (Hreq in_progress (Some (au_id bob)))) as (_ & _ & Hsucc & Hok).
  pose proof (complete_transition (calm "") no_gateway _ recursion bob _
                Hfind (Hreq open None)) as (Hinvalid & _).
  pose proof (complete_transition (calm "") no_gateway _ recursion alice _
                Hfind (Hreq in_progress (Some (au_id bob)))) as (_ & Hforbidden & _).
  assert (succeeded (complete (calm "") no_gateway
                       (sample_db in_progress (Some (au_id bob))) recursion bob).1.1)
    as Hdone.
  { apply Hok; [reflexivity | reflexivity | by intros []]. }
  split; [exact Hdone|].
  split; [by apply Hinvalid|].
  split; [by apply (Hforbidden eq_refl (au_id bob)); [|vm_compute] |].
  destruct (Hsucc Hdone) as (_ & _ & request' & Hlook & _ & Hst & Hat & Hh).
  exists request'. done.
Defined.

(** ** The lifecycle invariant *)

Section lifecycle_steps.
Implicit Types (env : Env) (io : Gateway) (db : Db) (caller : AuthUser).

Local Notation all_ok db := (map_Forall (λ _ r, lifecycle_ok r) (requests db)).

Lemma lifecycle_new caller (b : CreateBody) : lifecycle_ok (new_HelpRequest caller b).
Proof.
  unfold lifecycle_ok. simpl. split_and!; [done| |].
  - by intros [|].
  - by intros [? [=]].
Qed.

Lemma lifecycle_accepted (r : HelpRequest) (u : UserId) (now : Timestamp) :
  status r = open → lifecycle_ok r → lifecycle_ok (accepted r u now).
Proof.
  intros Hopen (_ & _ & Hdone). unfold lifecycle_ok. simpl. split_and!; [done|eauto|].
  intros Hset. apply Hdone in Hset. congruence.
Qed.

Lemma lifecycle_finished (r : HelpRequest) (h : UserId) (now : Timestamp) :
  helper r = Some h → lifecycle_ok (finished_request r now).
Proof.
  intros Hh. unfold lifecycle_ok. simpl. rewrite Hh. split_and!; [done|eauto|done].
Qed.

Lemma lifecycle_save db id (r : HelpRequest) :
  lifecycle_ok r → all_ok db → all_ok (save_request id r db).
Proof. intros Hr Hdb. simpl. by apply map_Forall_insert_2. Qed.

Lemma lifecycle_create env db caller (b : CreateBody) :
  all_ok db → all_ok (create env db caller b).1.2.
Proof.
  intros Hdb. unfold create.
  assert (all_ok (save_request (new_id env) (new_HelpRequest caller b) db)) as Hnew
    by (apply lifecycle_save; [apply lifecycle_new | done]).
  destruct (validate_create b); [|done].
  destruct (db_ok env FindCategory); simpl; [|done].
  destruct (categories db !! cb_categoryId b); [|done].
  destruct (db_ok env SaveRequest); simpl; [|done].
  destruct (db_ok env PopulateRequest); simpl; [|done].
  destruct (populate _ _); [|done].
  by destruct (send_all env _).
Qed.

Lemma lifecycle_accept env io db id caller :
  all_ok db → all_ok (accept env io db id caller).1.2.
Proof.
  intros Hdb. unfold accept.
  destruct (db_ok env FindRequest); simpl; [|done].
  destruct (requests db !! id) as [request|] eqn:Hreq; [|done].
  case_bool_decide as Hopen; simpl; [|done].
  case_bool_decide; [done|].
  assert (all_ok (save_request id (accepted request (au_id caller) (clock env 0)) db))
    as Hnew.
  { apply lifecycle_save; [|done]. apply lifecycle_accepted; [done|].
    by apply (Hdb id). }
  destruct (db_ok env SaveRequest); simpl; [|done].
  destruct (db_ok env PopulateRequest); simpl; [|done].
  destruct (populate _ _) as [populated|]; [|done].
  destruct (p_requester populated); [|done].
  by destruct (send_all env _).
Qed.

Lemma lifecycle_complete env io db id caller :
  all_ok db → all_ok (complete env io db id caller).1.2.
Proof.
  intros Hdb. unfold complete.
  destruct (db_ok env FindRequest); simpl; [|done].
  destruct (requests db !! id) as [request|] eqn:Hreq; [|done].
  case_bool_decide as Hprog; simpl; [|done].
  destruct (helper request) as [h|] eqn:Hh; [|done].
  case_bool_decide; simpl; [|done].
  assert (all_ok (save_request id (finished_request request (clock env 0)) db))
    as Hnew by (apply lifecycle_save; [by eapply lifecycle_finished | done]).
  destruct (db_ok env SaveRequest); simpl; [|done].
  destruct (db_ok env PopulateRequest); simpl; [|done].
  destruct (populate _ _) as [populated|]; [|done].
  by destruct (send_all env _).
Qed.

Lemma requests_post_message env db caller (b : MessageBody) :
  requests (post_message env db caller b).1.2 = requests db.
Proof.
  unfold post_message. repeat (case_match; simpl; try done).
Qed.

Lemma requests_send_message env (socket : Socket) (data : MessageData) db io :
  requests (send_message env socket data db io).1 = requests db.
Proof.
  unfold send_message. repeat (case_match; simpl; try done).
Qed.

Lemma lifecycle_step env (e : Event) (w : World) :
  all_ok (w_db w) → all_ok (w_db (step env e w).1).
Proof.
  intros Hw. destruct e; unfold step; cbv zeta.
  - by destruct (authenticate auth_userId).
  - by destruct (join_room _ _ _ _ _).
  - by destruct (leave_room _ _ _ _).
  - pose proof (requests_send_message env socket data (w_db w) (w_io w)) as H.
    destruct (send_message _ _ _ _ _). simpl in *. by rewrite H.
  - done.
  - by destruct (disconnect _ _ _).
  - pose proof (lifecycle_create env _ caller b Hw) as H.
    by destruct (create _ _ _ _) as [[? ?] ?].
  - pose proof (lifecycle_accept env (w_io w) _ id caller Hw) as H.
    by destruct (accept _ _ _ _ _) as [[? ?] ?].
  - pose proof (lifecycle_complete env (w_io w) _ id caller Hw) as H.
    by destruct (complete _ _ _ _ _) as [[? ?] ?].
  - pose proof (requests_post_message env (w_db w) caller b) as H.
    destruct (post_message _ _ _ _) as [[? ?] ?]. simpl in *. by rewrite H.
Qed.
End lifecycle_steps.

Section overlapping.
Implicit Types (env : Env) (db : Db) (caller : AuthUser) (x : Racing) (s : Save).

Local Notation all_ok db := (map_Forall (λ _ r, lifecycle_ok r) (requests db)).

(** The two phases, one right after the other, write what the route
    writes when nothing runs in between. *)
Lemma accept_in_two_phases env io db id caller :
  requests (accept env io db id caller).1.2 =
  requests (from_option (λ s, lands env s db) db (accept_reads env db id caller)).
Proof.
  unfold accept, accept_reads, lands.
  destruct (db_ok env FindRequest); simpl; [|done].
  destruct (requests db !! id) as [request|] eqn:Hreq; simpl; [|done].
  destruct (bool_decide (status request = open)); simpl; [|done].
  destruct (bool_decide (requester request = au_id caller)); simpl; [done|].
  destruct (db_ok env SaveRequest); simpl; [|done].
  rewrite Hreq.
  destruct (db_ok env PopulateRequest); simpl; [|done].
  destruct (populate _ _) as [populated|]; [|done].
  destruct (p_requester populated); [|done].
  by destruct (send_all env _).
Qed.

Lemma complete_in_two_phases env io db id caller :
  requests (complete env io db id caller).1.2 =
  requests (from_option (λ s, lands env s db) db (complete_reads env db id caller)).
Proof.
  unfold complete, complete_reads, lands.
  destruct (db_ok env FindRequest); simpl; [|done].
  destruct (requests db !! id) as [request|] eqn:Hreq; simpl; [|done].
  destruct (bool_decide (status request = in_progress)); simpl; [|done].
  destruct (helper request) as [h|]; simpl; [|done].
  destruct (bool_decide (h = au_id caller)); simpl; [|done].
  destruct (db_ok env SaveRequest); simpl; [|done].
  rewrite Hreq.
  destruct (db_ok env PopulateRequest); simpl; [|done].
  destruct (populate _ _) as [populated|]; [|done].
  by destruct (send_all env _).
Qed.

(** A whole event leaves the requests it does not touch as they are. *)
Lemma step_elsewhere env (e : Event) (w : World) (q : RequestId) :
  touches env (Whole e) ≠ Some q →
  requests (w_db (step env e w).1) !! q = requests (w_db w) !! q.
Proof.
  intros Hq. destruct e; unfold step; cbv zeta.
  - by destruct (authenticate auth_userId).
  - by destruct (join_room _ _ _ _ _).
  - by destruct (leave_room _ _ _ _).
  - pose proof (requests_send_message env socket data (w_db w) (w_io w)) as H.
    destruct (send_message _ _ _ _ _). simpl in *. by rewrite H.
  - done.
  - by destruct (disconnect _ _ _).
  - assert (requests (create env (w_db w) caller b).1.2 !! q = requests (w_db w) !! q)
      as H.
    { unfold create.
      assert (requests (save_request (new_id env) (new_HelpRequest caller b) (w_db w)) !! q
              = requests (w_db w) !! q) as Hnew.
      { simpl. apply lookup_insert_ne. simpl in Hq. congruence. }
      destruct (validate_create b); [|done].
      destruct (db_ok env FindCategory); simpl; [|done].
      destruct (categories (w_db w) !! cb_categoryId b); [|done].
      destruct (db_ok env SaveRequest); simpl; [|done].
      destruct (db_ok env PopulateRequest); simpl; [|done].
      destruct (populate _ _); [|done].
      by destruct (send_all env _). }
    by destruct (create _ _ _ _) as [[? ?] ?].
  - pose proof (accept_in_two_phases env (w_io w) (w_db w) id caller) as H.
    destruct (accept _ _ _ _ _) as [[? db'] ?]. simpl in *. rewrite H.
    unfold accept_reads, lands.
    repeat (case_match; simpl in *; simplify_eq; try done).
    apply lookup_insert_ne. congruence.
  - pose proof (complete_in_two_phases env (w_io w) (w_db w) id caller) as H.
    destruct (complete _ _ _ _ _) as [[? db'] ?]. simpl in *. rewrite H.
    unfold complete_reads, lands.
    repeat (case_match; simpl in *; simplify_eq; try done).
    apply lookup_insert_ne. congruence.
  - pose proof (requests_post_message env (w_db w) caller b) as H.
    destruct (post_message _ _ _ _) as [[? ?] ?]. simpl in *. by rewrite H.
Qed.

Lemma racing_ok_await x s (stored : HelpRequest) :
  racing_ok x → sv_id s ∉ in_flight x →
  requests (w_db (r_world x)) !! sv_id s = Some stored →
  lifecycle_ok (modify (sv_delta s) stored) →
  racing_ok (await x (Some s)).
Proof.
  intros (Hall & Hdup & Hpend) Hnew Hstored Hok. split_and!; simpl.
  - done.
  - unfold in_flight. simpl. rewrite fmap_app. simpl.
    apply NoDup_app. split_and!; [done| |apply NoDup_singleton].
    intros id Hid ->%list_elem_of_singleton. done.
  - apply Forall_app. split; [done|]. apply Forall_singleton. eauto.
Qed.

Lemma accept_reads_ok env db id caller s :
  all_ok db → accept_reads env db id caller = Some s →
  sv_id s = id ∧
  ∃ stored, requests db !! id = Some stored ∧ lifecycle_ok (modify (sv_delta s) stored).
Proof.
  intros Hall. unfold accept_reads.
  destruct (db_ok env FindRequest); simpl; [|done].
  destruct (requests db !! id) as [request|] eqn:Hreq; [|done].
  case_bool_decide as Hopen; simpl; [|done].
  case_bool_decide; [done|]. intros [= <-]. split; [done|].
  exists request. split; [done|]. simpl.
  apply lifecycle_accepted; [done|]. by apply (Hall id).
Qed.

Lemma complete_reads_ok env db id caller s :
  complete_reads env db id caller = Some s →
  sv_id s = id ∧
  ∃ stored, requests db !! id = Some stored ∧ lifecycle_ok (modify (sv_delta s) stored).
Proof.
  unfold complete_reads.
  destruct (db_ok env FindRequest); simpl; [|done].
  destruct (requests db !! id) as [request|] eqn:Hreq; [|done].
  case_bool_decide as Hprog; simpl; [|done].
  destruct (helper request) as [h|] eqn:Hh; [|done].
  case_bool_decide; simpl; [|done]. intros [= <-]. split; [done|].
  exists request. split; [done|]. simpl. by eapply lifecycle_finished.
Qed.

Lemma racing_ok_move env (m : Move) x :
  racing_ok x →
  match touches env m with Some id => id ∉ in_flight x | None => True end →
  racing_ok (move env m x).
Proof.
  intros Hx Hfree. destruct m as [e|caller id|caller id|k]; simpl.
  - destruct Hx as (Hall & Hdup & Hpend). split_and!; simpl; [|done|].
    + by apply lifecycle_step.
    + apply Forall_forall. intros s Hs.
      rewrite Forall_forall in Hpend. destruct (Hpend s Hs) as (stored & Hstored & Hok).
      exists stored. split; [|done]. rewrite step_elsewhere; [done|].
      intros Heq. rewrite Heq in Hfree. apply Hfree.
      unfold in_flight. by apply list_elem_of_fmap_2.
  - destruct (accept_reads env _ id caller) as [s|] eqn:Hs; [|done].
    apply accept_reads_ok in Hs as (Hid & stored & Hstored & Hok); [|apply Hx].
    simpl in Hfree. subst id. by eapply racing_ok_await.
  - destruct (complete_reads env _ id caller) as [s|] eqn:Hs; [|done].
    apply complete_reads_ok in Hs as (Hid & stored & Hstored & Hok).
    simpl in Hfree. subst id. by eapply racing_ok_await.
  - destruct (r_pending x !! k) as [s|] eqn:Hk; [|done].
    destruct Hx as (Hall & Hdup & Hpend).
    pose proof (take_drop_middle _ _ _ Hk) as Hsplit.
    unfold in_flight in Hdup. rewrite <- Hsplit in Hdup, Hpend.
    rewrite fmap_app, fmap_cons in Hdup.
    apply NoDup_app in Hdup as (Hdup1 & Hdisj & [Hnot Hdup2]%NoDup_cons).
    apply Forall_app in Hpend as (Hpend1 & [Hs Hpend2]%Forall_cons).
    destruct Hs as (stored & Hstored & Hok).
    assert (∀ s', s' ∈ take k (r_pending x) ++ drop (S k) (r_pending x) →
                  sv_id s' ≠ sv_id s) as Hother.
    { intros s' [Hin|Hin]%elem_of_app Heq.
      - apply (Hdisj (sv_id s')); [by apply list_elem_of_fmap_2|]. rewrite Heq. left.
      - apply Hnot. rewrite <- Heq. by apply list_elem_of_fmap_2. }
    assert (∀ q, q ≠ sv_id s →
              requests (lands env s (w_db (r_world x))) !! q =
              requests (w_db (r_world x)) !! q) as Hrest.
    { intros q Hq. unfold lands. destruct (db_ok env SaveRequest); simpl; [|done].
      rewrite Hstored. simpl. by apply lookup_insert_ne. }
    split_and!; simpl.
    + unfold lands. destruct (db_ok env SaveRequest); simpl; [|done].
      rewrite Hstored. by apply lifecycle_save.
    + unfold in_flight. simpl. rewrite delete_take_drop, fmap_app.
      apply NoDup_app. split_and!; [done| |done].
      intros id Hid1 Hid2. apply (Hdisj id Hid1). by right.
    + rewrite delete_take_drop. apply Forall_forall. intros s' Hs'.
      assert (∃ stored', requests (w_db (r_world x)) !! sv_id s' = Some stored' ∧
                lifecycle_ok (modify (sv_delta s') stored')) as (stored' & Hst' & Hok').
      { apply elem_of_app in Hs' as [Hin|Hin];
          [rewrite Forall_forall in Hpend1; by apply Hpend1
          |rewrite Forall_forall in Hpend2; by apply Hpend2]. }
      exists stored'. split; [|done]. rewrite Hrest; [done|]. by apply Hother.
Qed.

Lemma racing_ok_race x (trace : list (Env * Move)) :
  racing_ok x → exclusive x trace → racing_ok (race x trace).
Proof.
  revert x. induction trace as [|[env m] trace IH]; intros x Hx Hex; [done|].
  destruct Hex as [Hfree Hex]. apply IH; [|done]. by apply racing_ok_move.
Qed.

(** Events that each run as a whole never overlap, and the race is the run. *)
Lemma race_whole x (trace : list (Env * Event)) :
  r_world (race x (prod_map id Whole <$> trace)) = run (r_world x) trace ∧
  (r_pending x = [] → exclusive x (prod_map id Whole <$> trace)).
Proof.
  revert x. induction trace as [|[env e] trace IH]; intros x; [done|].
  destruct (IH (move env (Whole e) x)) as [Hrun Hex]. split.
  - exact Hrun.
  - intros Hnone. split.
    + unfold in_flight. rewrite Hnone. destruct (touches _ _); [|done].
      apply not_elem_of_nil.
    + by apply Hex.
Qed.
End overlapping.




(** ** Examples on the sample data *)

Lemma send_message_persists_once_and_broadcasts_witness :
  let db := sample_db in_progress (Some (au_id bob)) in
  let env := calm "64b0000000000000000000e5" in
  let out := send_message env tab1 sketch db two_tabs in
  last out.2 = Some (sent_line sketch) ∧
  messages out.1 =
    [{| _id := "64b0000000000000000000e5"; request := recursion; sender := au_id alice;
        content := "my attempt"; messageType := "image";
        fileName := Some "sketch.png"; fileUrl := None; fileSize := Some 2048;
        isRead := false |}] ∧
  ∃ message,
    cm_id message = Some "64b0000000000000000000e5" ∧
    cm_messageType message = "image" ∧
    Emit (sid tab1) "message" (MessageEvt message) ∈ out.2 ∧
    Emit (sid tab2) "message" (MessageEvt message) ∈ out.2 ∧
    Emit (sid bobs) "message" (MessageEvt message) ∈ out.2 ∧
    Emit "s4" "message" (MessageEvt message) ∉ out.2.
Proof.
  intros db env out.
  destruct (send_message_persists_once_and_broadcasts env tab1 sketch db two_tabs)
    as [Hruns Hdone].
  assert (last out.2 = Some (sent_line sketch)) as Hsent.
  { apply Hruns; [reflexivity | by vm_compute; eauto | reflexivity]. }
  split; [exact Hsent|].
  destruct (Hdone Hsent) as (user & t & Huser & Htype & Hrow & Hiff & _ & Hecho & _).
  assert (t = "image") as ->.
  { by destruct Htype as [[[= <-] _]|[[[=]|[=]] _]]. }
  split; [exact Hrow|].
  eexists. split_and!.
  3: { apply Hecho. by vm_compute. }
  - done.
  - done.
  - apply Hiff. by vm_compute.
  - apply Hiff. by vm_compute.
  - intros Hin. apply Hiff in Hin. revert Hin. by vm_compute.
Defined.

(** C1 as stated fails for a sender that has not joined the room. Alice's
    second tab is connected (it is her registry entry, and Alice is in the
    member set of the room through her first tab) but has not joined the
    room; it sends "hello". The event runs to its end, the row is stored and
    Bob's connection gets the message, but the sender's own connection gets
    no [message] event. *)
Lemma send_message_without_joining :
  let db := sample_db in_progress (Some (au_id bob)) in
  let g := (connection tab2 chatting).1 in
  let out := send_message (calm "64b0000000000000000000e5") tab2 hello db g in
  last out.2 = Some (sent_line hello) ∧
  messages out.1 = [stored_hello "64b0000000000000000000e5"] ∧
  sid tab2 ∈ sockets g ∧
  connectedUsers g !! au_id alice = Some tab2 ∧
  au_id alice ∈ default ∅ (roomUsers g !! recursion) ∧
  (sid tab2 ∉ room_sockets g recursion) ∧
  Forall (λ e, ∀ p, e ≠ Emit (sid tab2) "message" p) out.2 ∧
  Exists (λ e, ∃ p, e = Emit (sid bobs) "message" p) out.2.
Proof.
  vm_compute. split_and!; try done.
  - repeat constructor; by intros ? [=].
  - apply Exists_cons_tl. apply Exists_cons_hd. eauto.
Qed.

Lemma send_message_write_failure_reaches_sender_only_witness :
  let db := sample_db in_progress (Some (au_id bob)) in
  let out := send_message (write_down "") tab1 hello db chatting in
  out.1 = db ∧
  Emit (sid tab1) "error" (ErrorEvt "Failed to send message") ∈ out.2 ∧
  ∀ p, (Emit (sid bobs) "message" p ∉ out.2) ∧
       (Emit (sid bobs) "notification" p ∉ out.2).
Proof.
  intros db out.
  assert (users db !! suid tab1 =
          Some {| email := au_email alice; name := au_name alice; picture := None |})
    as Huser by by vm_compute.
  destruct (send_message_write_failure_reaches_sender_only (write_down "") tab1 hello
              db chatting _ eq_refl Huser eq_refl) as (Hdb & _ & Herr & Honly).
  split; [exact Hdb|]. split; [exact Herr|].
  intros p. split; intros Hin; by apply Honly in Hin as (_ & [=] & _).
Defined.

(** The third outcome of join_room on a server reached by events. Alice's
    first tab has disconnected, which deleted her room set while her second
    tab is live; the second tab joins the room of her own request. Its socket
    enters the connection group, but Alice is in no member set, her room set
    is still missing, and Bob, who is in the room, is not notified. Before
    the first tab closed the same event ran to its end and Bob was
    notified. *)
Lemma join_room_outcomes_witness :
  let out := join_room (calm "") (w_db tab_closed) tab2 (in_recursion alice)
               (w_io tab_closed) in
  let earlier := join_room (calm "") (w_db tabs_open) tab2 (in_recursion alice)
                   (w_io tabs_open) in
  requests (w_db tab_closed) !! recursion = Some accepted_recursion ∧
  requester accepted_recursion = au_id alice ∧
  sid tab2 ∈ sockets (w_io tab_closed) ∧
  sid bobs ∈ room_sockets (w_io tab_closed) recursion ∧
  sid tab2 ∈ room_sockets out.1 recursion ∧
  userRooms out.1 !! au_id alice = None ∧
  roomUsers out.1 !! recursion = Some {[au_id bob]} ∧
  Forall is_log out.2 ∧
  last out.2 = Some (LogError "Error joining room: ") ∧
  Emit (sid bobs) "user_joined_room"
    (PresenceEvt recursion (au_id alice) (clock (calm "") 0)) ∈ earlier.2 ∧
  last earlier.2 = Some (joined_line (in_recursion alice)).
Proof.
  assert (requests (w_db tab_closed) !! rd_requestId (in_recursion alice)
          = Some accepted_recursion) as Hreq by by vm_compute.
  assert (requests (w_db tabs_open) !! rd_requestId (in_recursion alice)
          = Some accepted_recursion) as Hreq0 by by vm_compute.
  assert (requester accepted_recursion = rd_userId (in_recursion alice)) as Hrq
    by reflexivity.
  assert (userRooms (w_io tab_closed) !! rd_userId (in_recursion alice) = None) as Hnone
    by by vm_compute.
  assert (userRooms (w_io tabs_open) !! rd_userId (in_recursion alice) = Some ∅) as Hset
    by by vm_compute.
  destruct (join_room_outcomes (calm "") (w_db tab_closed) tab2 (in_recursion alice)
              (w_io tab_closed)) as (_ & Hauth).
  destruct (Hauth accepted_recursion eq_refl Hreq (or_introl Hrq)) as [_ Hthrown].
  destruct (Hthrown Hnone) as (Hgroup & Hrooms & Hmembers & _ & Hlogs & Hlast).
  destruct (join_room_outcomes (calm "") (w_db tabs_open) tab2 (in_recursion alice)
              (w_io tabs_open)) as (_ & Hauth0).
  destruct (Hauth0 accepted_recursion eq_refl Hreq0 (or_introl Hrq)) as [Hjoined _].
  destruct (Hjoined ∅ Hset) as (_ & _ & _ & _ & Hemit & Hline).
  intros out earlier.
  split; [exact Hreq|]. split; [exact Hrq|].
  split; [by vm_compute|]. split; [by vm_compute|].
  split.
  { change (sid tab2 ∈ room_sockets
              (join_room (calm "") (w_db tab_closed) tab2 (in_recursion alice)
                 (w_io tab_closed)).1 (rd_requestId (in_recursion alice))).
    rewrite Hgroup. rewrite decide_True by done. set_solver. }
  split.
  { change (userRooms (join_room (calm "") (w_db tab_closed) tab2 (in_recursion alice)
                         (w_io tab_closed)).1 !! au_id alice = None).
    rewrite Hrooms. exact Hnone. }
  split.
  { change (roomUsers (join_room (calm "") (w_db tab_closed) tab2 (in_recursion alice)
                         (w_io tab_closed)).1 !! recursion = Some {[au_id bob]}).
    rewrite Hmembers. vm_compute. reflexivity. }
  split; [exact Hlogs|]. split; [exact Hlast|].
  split; [|exact Hline].
  apply Hemit. split_and!; [done|done|by vm_compute|by vm_compute].
Defined.

Lemma stale_disconnect_unregisters_live_connection_witness :
  let g' := (disconnect (calm "") tab1 two_tabs).1 in
  connectedUsers two_tabs !! au_id alice = Some tab2 ∧
  au_id alice ∈ default ∅ (roomUsers two_tabs !! recursion) ∧
  sid tab2 ∈ sockets g' ∧
  sid tab2 ∈ room_sockets g' recursion ∧
  connectedUsers g' !! au_id alice = None ∧
  userRooms g' !! au_id alice = None ∧
  au_id alice ∉ default ∅ (roomUsers g' !! recursion).
Proof.
  intros g'.
  assert (suid tab1 = suid tab2) as Hsame by reflexivity.
  assert (sid tab1 ≠ sid tab2) as Hdiff by by vm_compute.
  assert (connectedUsers two_tabs !! au_id alice = Some tab2) as Hreg by by vm_compute.
  assert (presence_consistent two_tabs) as Hg.
  { unfold two_tabs, chatting.
    repeat first [apply presence_join_room | apply presence_connection].
    apply presence_boot. }
  destruct (stale_disconnect_unregisters_live_connection (calm "") tab1 tab2
              no_gateway two_tabs Hsame Hdiff) as [_ Hlost].
  destruct (Hlost Hg Hreg) as (Hlive & Hrooms & Hnoreg & Hnorooms & Hnomember).
  { by vm_compute. }
  split; [exact Hreg|]. split; [by vm_compute|].
  split; [exact Hlive|]. split; [apply Hrooms; by vm_compute|].
  split; [exact Hnoreg|]. split; [exact Hnorooms|]. apply Hnomember.
Defined.

(** ** Best-effort mails *)

Section mails.
Implicit Types (env : Env) (io : Gateway) (db : Db) (caller : AuthUser).

(** In the three request routes the mails are sent inside their own
    [try]/[catch]: neither the response nor the database depends on the mail
    server. *)
Lemma create_ignores_mail env (ok : Email → bool) db caller (b : CreateBody) :
  (create (with_mail env ok) db caller b).1 = (create env db caller b).1.
Proof.
  unfold create. simpl.
  repeat (case_match; simpl in *; simplify_eq; try done).
Qed.

Lemma accept_ignores_mail env (ok : Email → bool) io db id caller :
  (accept (with_mail env ok) io db id caller).1 = (accept env io db id caller).1.
Proof.
  unfold accept. simpl.
  repeat (case_match; simpl in *; simplify_eq; try done).
Qed.

Lemma complete_ignores_mail env (ok : Email → bool) io db id caller :
  (complete (with_mail env ok) io db id caller).1 = (complete env io db id caller).1.
Proof.
  unfold complete. simpl.
  repeat (case_match; simpl in *; simplify_eq; try done).
Qed.

(** A [try] block of mails that does not run to its end sent at most a
    prefix of them. *)
Lemma send_all_unfinished env (mails : list (option Email)) :
  (∀ m, mail_ok env m = false) → mails ≠ [] → send_all env mails = ([], false).
Proof.
  intros Hdown Hne. destruct mails as [|[m|] mails]; [done| |done].
  unfold send_all. by rewrite Hdown.
Qed.

(** With the mail server down, an accepted request is answered with success,
    stays accepted, and the failure is logged. *)
Lemma accept_mail_failure_logged env io db id caller :
  (∀ m, mail_ok env m = false) →
  succeeded (accept env io db id caller).1.1 →
  LogError "Failed to send acceptance email:" ∈ (accept env io db id caller).2.
Proof.
  intros Hdown. unfold accept.
  repeat (case_match; simpl in *; simplify_eq; try (unfold succeeded; simpl; lia)).
  all: intros; rewrite send_all_unfinished in * by done; simplify_eq.
  all: rewrite !elem_of_app, !elem_of_cons; simpl.
  all: do 3 right; by left.
Qed.
End mails.

(** C8 is broken by POST /messages. Alice posts "hello" on the request Bob is
    helping with while the mail server is down: the message row is written,
    the rejected [sendEmail] is caught by the route's outer [catch], and the
    caller is answered 500 "Failed to send message"; with the mail server
    up the same call is answered 201. The request routes (create, accept,
    complete) wrap their mails in a [try] of their own and do not depend on
    the mail server ([create_ignores_mail], [accept_ignores_mail],
    [complete_ignores_mail]). *)
Theorem post_message_mail_failure_is_propagated :
  let db := sample_db in_progress (Some (au_id bob)) in
  let id := "64b0000000000000000000e5" in
  let out := post_message (mail_down id) db alice hello_body in
  out.1.1 = reply 500 (JsonError "Failed to send message") ∧
  messages out.1.2 = [stored_hello id] ∧
  LogError "Error sending message:" ∈ out.2 ∧
  (post_message (calm id) db alice hello_body).1.1 =
    reply 201 (JsonMessage (stored_hello id) "Alice" None).
Proof. vm_compute. split_and!; try done. by left. Qed.

Lemma presence_registry_invariant_witness :
  let g := w_io (run (boot sample_users sample_categories) chat_trace) in
  roomUsers g !! recursion = Some {[au_id alice]} ∧
  (au_id alice ∈ default ∅ (roomUsers g !! recursion) ↔
   recursion ∈ default ∅ (userRooms g !! au_id alice)) ∧
  (au_id bob ∈ default ∅ (roomUsers g !! recursion) ↔
   recursion ∈ default ∅ (userRooms g !! au_id bob)) ∧
  roomUsers g !! recursion ≠ Some ∅.
Proof.
  intros g.
  destruct (presence_registry_invariant sample_users sample_categories chat_trace)
    as [Hiff Hne].
  split; [vm_compute; reflexivity|].
  split; [apply Hiff|]. split; [apply Hiff|]. apply Hne.
Defined.

Lemma disconnect_leaves_every_room_witness :
  let g' := (disconnect (calm "") bobs two_tabs).1 in
  let eff := (disconnect (calm "") bobs two_tabs).2 in
  recursion ∈ default ∅ (userRooms two_tabs !! au_id bob) ∧
  connectedUsers g' !! au_id bob = None ∧
  roomUsers g' !! recursion = Some {[au_id alice]} ∧
  (∃ t, Emit (sid tab1) "user_left_room" (PresenceEvt recursion (au_id bob) t) ∈ eff) ∧
  (∃ t, Emit (sid tab2) "user_left_room" (PresenceEvt recursion (au_id bob) t) ∈ eff).
Proof.
  intros g' eff.
  destruct (disconnect_leaves_every_room (calm "") bobs two_tabs)
    as (Hreg & Hleft & _ & Hemit & _).
  assert (recursion ∈ default ∅ (userRooms two_tabs !! suid bobs)) as Hin
    by by vm_compute.
  split; [exact Hin|]. split; [exact Hreg|].
  split; [subst g'; rewrite (Hleft recursion Hin); vm_compute; reflexivity|].
  split; apply (Hemit recursion); try exact Hin; by vm_compute.
Defined.

